(** * Space Defender: a shallow embedding of the frame orchestrator

    The development follows the Python sources module by module:
    [config.py], [services/collision_service.py], [entities/player.py],
    [entities/enemy.py], [entities/projectile.py],
    [services/score_service.py] and [services/game_engine.py].

    Conventions of the embedding.
    - A Python [int] is a [Z]; a Python [float] is an exact rational [Q]
      (rounding of binary floating point and the non-finite floats are not
      represented).  The concrete examples below stay away from the values
      at which a rounding error could change a comparison or a truncation,
      and a subtraction [t - delta_time] in a statement stands for the one
      subtraction the code performs.
    - A [pygame.Rect] holds four integers, unbounded here and C ints of 32
      bits in pygame; see [Rect].  Storing a float into one of its
      attributes truncates it toward zero ([Qtrunc]).
    - A sprite object lives in a heap [objects] under an identity; a
      [pygame.sprite.Group] is the list of the references it holds, in
      insertion order.  [kill] removes a reference from every group.
    - Exceptions are the [Err] results of the monad [result]; code that
      touches the high-score file runs in the monad [M], whose world keeps
      the file and a log of the input/output performed. *)

From Stdlib Require Import ZArith QArith Lqa Lia List String.
From stdpp Require Import gmap list strings.

Open Scope Z_scope.

(** ** Python values and exceptions *)

Module Py.

Inductive exn :=
| TypeError (msg : string)
| AttributeError (msg : string)
| JSONDecodeError
| OSError (msg : string).

Inductive result (A : Type) :=
| Ok (a : A)
| Err (e : exn).
Arguments Ok {A} a.
Arguments Err {A} e.

Definition bind {A B} (m : result A) (k : A -> result B) : result B :=
  match m with
  | Ok a => k a
  | Err e => Err e
  end.

#[local] Unset Elimination Schemes.

(** The values [json.load] can produce.  A JSON object is the Python
    dict the parser returns, kept as an association list. *)
Inductive json :=
| JNull
| JBool (b : bool)
| JInt (z : Z)
| JFloat (q : Q)
| JStr (s : string)
| JArr (l : list json)
| JObj (l : list (string * json)).

#[local] Set Elimination Schemes.

(** [d.get(key, default)] on a dict. *)
Fixpoint dict_get (l : list (string * json)) (key : string) (default : json) : json :=
  match l with
  | [] => default
  | (k, v) :: l' => if String.eqb k key then v else dict_get l' key default
  end.

(** [data.get(key, default)] on an arbitrary value: only a dict has the
    method. *)
Definition get (data : json) (key : string) (default : json) : result json :=
  match data with
  | JObj l => Ok (dict_get l key default)
  | _ => Err (AttributeError "object has no attribute 'get'")
  end.

(** The number a value stands for in an ordering comparison with an
    [int]; [None] for the values on which [<] and [>] raise. *)
Definition num (v : json) : option Q :=
  match v with
  | JInt z => Some (inject_Z z)
  | JFloat q => Some q
  | JBool b => Some (if b then 1%Q else 0%Q)
  | _ => None
  end.

Definition Qlt_bool (a b : Q) : bool := negb (Qle_bool b a).

(** [a > v] for an [int] a. *)
Definition int_gt (a : Z) (v : json) : result bool :=
  match num v with
  | Some q => Ok (Qlt_bool q (inject_Z a))
  | None => Err (TypeError "'>' not supported between instances")
  end.

(** [int(x)] on a float, and the conversion a [pygame.Rect] applies to a
    float stored in one of its attributes: truncation toward zero. *)
Definition Qtrunc (q : Q) : Z := Z.quot (Qnum q) (Z.pos (Qden q)).

(** [a >= v] for an [int] a. *)
Definition int_ge (a : Z) (v : json) : result bool :=
  match num v with
  | Some q => Ok (Qle_bool q (inject_Z a))
  | None => Err (TypeError "'>=' not supported between instances")
  end.

End Py.

Notation "'let*' x := m 'in' k" := (Py.bind m (fun x => k))
  (at level 10, x name, m at level 100, k at level 200).

(** ** config.py *)

Module Config.

Definition SCREEN_WIDTH : Z := 800.
Definition SCREEN_HEIGHT : Z := 600.
Definition FPS : Z := 60.

Definition PLAYER_SPEED : Z := 5.
Definition PLAYER_WIDTH : Z := 30.
Definition PLAYER_HEIGHT : Z := 40.
Definition PLAYER_START_X_RATIO : Q := 1 # 2.
Definition PLAYER_START_Y_RATIO : Q := 85 # 100.
Definition PLAYER_STARTING_LIVES : Z := 3.
Definition PLAYER_INVULNERABILITY_TIME : Q := 2.

Definition PROJECTILE_SPEED : Z := 8.
Definition PROJECTILE_WIDTH : Z := 4.
Definition PROJECTILE_HEIGHT : Z := 12.
Definition PROJECTILE_COOLDOWN : Q := 3 # 10.

Definition ENEMY_SPEED_MIN : Q := 1.
Definition ENEMY_SPEED_MAX : Q := 3.
Definition ENEMY_SIZE_MIN : Z := 20.
Definition ENEMY_SIZE_MAX : Z := 40.
Definition ENEMY_SPAWN_RATE : Q := 3 # 2.
Definition ENEMY_POINTS : Z := 10.

Definition DIFFICULTY_INCREASE_INTERVAL : Z := 100.
Definition SPAWN_RATE_MULTIPLIER : Q := 9 # 10.
Definition ENEMY_SPEED_MULTIPLIER : Q := 11 # 10.

End Config.

(** ** pygame.Rect

    The four fields are integers.  pygame keeps them in C ints of 32 bits;
    the fields are unbounded here, and the arithmetic of the attributes is
    exact.  The two agree as long as every field and edge read or written
    is such an int: that is the case for every rectangle on or near the
    screen, and it is a hypothesis ([in_c_ints] below) where a statement
    quantifies over all rectangles. *)

Module Rect.

Record t := mk { x : Z; y : Z; w : Z; h : Z }.

Definition left (r : t) : Z := x r.
Definition top (r : t) : Z := y r.
Definition right (r : t) : Z := x r + w r.
Definition bottom (r : t) : Z := y r + h r.
Definition centerx (r : t) : Z := x r + w r / 2.
Definition centery (r : t) : Z := y r + h r / 2.

Definition set_x (v : Z) (r : t) : t := mk v (y r) (w r) (h r).
Definition set_y (v : Z) (r : t) : t := mk (x r) v (w r) (h r).
Definition set_left := set_x.
Definition set_top := set_y.
Definition set_right (v : Z) (r : t) : t := set_x (v - w r) r.
Definition set_bottom (v : Z) (r : t) : t := set_y (v - h r) r.
Definition set_centerx (v : Z) (r : t) : t := set_x (v - w r / 2) r.
Definition set_centery (v : Z) (r : t) : t := set_y (v - h r / 2) r.

(** [rect.x += d] and [rect.y += d] for a float d. *)
Definition add_x (d : Q) (r : t) : t := set_x (Py.Qtrunc (inject_Z (x r) + d)) r.
Definition add_y (d : Q) (r : t) : t := set_y (Py.Qtrunc (inject_Z (y r) + d)) r.

(** [Surface((w, h)).get_rect()]. *)
Definition of_size (w h : Z) : t := mk 0 0 w h.

(** [a.colliderect(b)]: strict overlap, and a rectangle of zero width or
    height collides with nothing. *)
Definition colliderect (a b : t) : bool :=
  if (w a =? 0) || (h a =? 0) || (w b =? 0) || (h b =? 0) then false
  else (Z.min (x a) (x a + w a) <? Z.max (x b) (x b + w b))
    && (Z.min (y a) (y a + h a) <? Z.max (y b) (y b + h b))
    && (Z.max (x a) (x a + w a) >? Z.min (x b) (x b + w b))
    && (Z.max (y a) (y a + h a) >? Z.min (y b) (y b + h b)).

End Rect.

(** ** services/collision_service.py (the functions on rectangles) *)

Module collision_service.


Definition check_out_of_bounds (rect : Rect.t) (screen_width screen_height margin : Z) : bool :=
  if Rect.right rect <? - margin then true
  else if Rect.left rect >? screen_width + margin then true
  else if Rect.bottom rect <? - margin then true
  else if Rect.top rect >? screen_height + margin then true
  else false.

Definition keep_in_bounds (rect : Rect.t) (screen_width screen_height : Z) : Rect.t :=
  let rect := if Rect.left rect <? 0 then Rect.set_left 0 rect else rect in
  let rect := if Rect.right rect >? screen_width then Rect.set_right screen_width rect else rect in
  let rect := if Rect.top rect <? 0 then Rect.set_top 0 rect else rect in
  let rect := if Rect.bottom rect >? screen_height then Rect.set_bottom screen_height rect else rect in
  rect.

End collision_service.

(** ** The input contract: the dict built by [InputService.get_input_state] *)

Record InputState := {
  move_left : bool;
  move_right : bool;
  move_up : bool;
  move_down : bool;
  shoot : bool
}.

(** ** entities/projectile.py *)

Module Projectile.

Record t := mk {
  rect : Rect.t;
  velocity_x : Q;
  velocity_y : Q
}.

(** [Projectile(x, y, velocity_x, velocity_y)]. *)
Definition init (x y : Z) (vx vy : Q) : t :=
  let r := Rect.of_size Config.PROJECTILE_WIDTH Config.PROJECTILE_HEIGHT in
  let r := Rect.set_centerx x r in
  let r := Rect.set_centery y r in
  mk r vx vy.

Definition update (delta_time : Q) (p : t) : t :=
  let r := Rect.add_x (velocity_x p * delta_time * 60)%Q (rect p) in
  let r := Rect.add_y (velocity_y p * delta_time * 60)%Q r in
  mk r (velocity_x p) (velocity_y p).

End Projectile.

(** ** entities/base_entity.py *)

Module BaseEntity.

Record t := mk {
  rect : Rect.t;
  velocity_x : Q;
  velocity_y : Q
}.

Definition update (delta_time : Q) (e : t) : t :=
  let r := Rect.add_x (velocity_x e * delta_time * 60)%Q (rect e) in
  let r := Rect.add_y (velocity_y e * delta_time * 60)%Q r in
  mk r (velocity_x e) (velocity_y e).

End BaseEntity.

(** The one library function whose result is left open:
  [pygame.transform.rotate(image, angle).get_size()] for a square image of
  the given side, the bounding box of the rotated square. *)
Class Transform := { rotate_size : Z -> Q -> Z * Z }.

(** ** entities/enemy.py *)

Module Enemy.

Record t := mk {
  rect : Rect.t;
  speed : Q;
  rotation : Q;
  rotation_speed : Q;
  size : Z
}.

(** [Enemy(x, y, speed, size)]; the two [random.uniform] draws of the
    constructor are the last two arguments. *)
Definition init (x y : Z) (speed : Q) (size : Z) (rotation rotation_speed : Q) : t :=
  let r := Rect.of_size size size in
  let r := Rect.set_centerx x r in
  let r := Rect.set_centery y r in
  mk r speed rotation rotation_speed size.

Definition update `{Transform} (delta_time : Q) (e : t) : t :=
  let r := Rect.add_y (speed e * delta_time * 60)%Q (rect e) in
  let rotation' := (rotation e + rotation_speed e)%Q in
  let '(w', h') := rotate_size (size e) rotation' in
  let old_centerx := Rect.centerx r in
  let old_centery := Rect.centery r in
  let r := Rect.of_size w' h' in
  let r := Rect.set_centery old_centery (Rect.set_centerx old_centerx r) in
  mk r (speed e) rotation' (rotation_speed e) (size e).

End Enemy.

(** ** entities/player.py *)

Module Player.

Record t := mk {
  rect : Rect.t;
  lives : Z;
  max_lives : Z;
  shoot_cooldown : Q;
  invulnerable_flash_timer : Q;
  alpha : Z
}.

(** [Player(x, y)]; the float coordinates are truncated by the Rect. *)
Definition init (x y : Q) : t :=
  let r := Rect.of_size Config.PLAYER_WIDTH Config.PLAYER_HEIGHT in
  let r := Rect.set_centerx (Py.Qtrunc x) r in
  let r := Rect.set_centery (Py.Qtrunc y) r in
  mk r Config.PLAYER_STARTING_LIVES Config.PLAYER_STARTING_LIVES 0 0 255.

(** [update(input_state, delta_time)].  The two timers are floats; each
    [timer -= delta_time] is one subtraction, exact here and rounded to
    the nearest float in Python. *)
Definition update (input_state : InputState) (delta_time : Q) (p : t) : t :=
  let move_x := 0 in
  let move_y := 0 in
  let move_x := if move_left input_state then move_x - Config.PLAYER_SPEED else move_x in
  let move_x := if move_right input_state then move_x + Config.PLAYER_SPEED else move_x in
  let r := Rect.set_x (Rect.x (rect p) + move_x) (rect p) in
  let r := Rect.set_y (Rect.y r + move_y) r in
  let r := collision_service.keep_in_bounds r Config.SCREEN_WIDTH Config.SCREEN_HEIGHT in
  let cooldown :=
    if Py.Qlt_bool 0 (shoot_cooldown p)
    then (shoot_cooldown p - delta_time)%Q
    else shoot_cooldown p in
  if Py.Qlt_bool 0 (invulnerable_flash_timer p) then
    let flash := (invulnerable_flash_timer p - delta_time)%Q in
    let a := if Py.Qtrunc (flash * 10)%Q mod 2 =? 0 then 100 else 255 in
    mk r (lives p) (max_lives p) cooldown flash a
  else
    mk r (lives p) (max_lives p) cooldown (invulnerable_flash_timer p) 255.

Definition can_shoot (p : t) : bool := Qle_bool (shoot_cooldown p) 0.

(** Returns the new projectile, if any, and the player with its cooldown
    reset. *)
Definition shoot (p : t) : option Projectile.t * t :=
  if negb (can_shoot p) then (None, p)
  else
    let bullet_x := Rect.centerx (rect p) in
    let bullet_y := Rect.top (rect p) in
    let projectile :=
      Projectile.init bullet_x bullet_y 0 (inject_Z (- Config.PROJECTILE_SPEED)) in
    (Some projectile,
     mk (rect p) (lives p) (max_lives p) Config.PROJECTILE_COOLDOWN
        (invulnerable_flash_timer p) (alpha p)).

Definition take_damage (p : t) : t :=
  mk (rect p) (lives p - 1) (max_lives p) (shoot_cooldown p)
     Config.PLAYER_INVULNERABILITY_TIME (alpha p).

Definition heal (amount : Z) (p : t) : t :=
  mk (rect p) (Z.min (lives p + amount) (max_lives p)) (max_lives p)
     (shoot_cooldown p) (invulnerable_flash_timer p) (alpha p).

End Player.

(** ** The world of the high-score file

    [HIGHSCORE_FILE] is the only path the program touches.  Its text is kept
    up to what [json.load] makes of it: [Text j] parses to [j], [Garbage] is
    any text the parser rejects (the empty file included).  That [json.load]
    reads back the value [json.dump] wrote is the contract of the [json]
    library and is part of this representation.  The flags stand
    for the ways the operating system can refuse: no read permission, no
    write permission, no space left.  [log] records what was written and
    printed. *)

Module World.

Inductive content :=
| Text (j : Py.json)
| Garbage.

Inductive event :=
| Dumped (data : Py.json)
| Printed (msg : string).

Record t := mk {
  file : option content;
  readable : bool;
  writable : bool;
  disk_full : bool;
  log : list event
}.

Definition M (A : Type) : Type := t -> Py.result A * t.

Definition ret {A} (a : A) : M A := fun w => (Py.Ok a, w).

Definition raise {A} (e : Py.exn) : M A := fun w => (Py.Err e, w).

Definition bind {A B} (m : M A) (k : A -> M B) : M B :=
  fun w =>
    match m w with
    | (Py.Ok a, w') => k a w'
    | (Py.Err e, w') => (Py.Err e, w')
    end.

Definition lift {A} (r : Py.result A) : M A := fun w => (r, w).

(** [try: body except Exception as e: handler(e)]; the handler runs in the
    world the body left behind. *)
Definition try_except {A} (body : M A) (handler : Py.exn -> M A) : M A :=
  fun w =>
    match body w with
    | (Py.Ok a, w') => (Py.Ok a, w')
    | (Py.Err e, w') => handler e w'
    end.

Definition set_file (c : option content) (w : t) : t :=
  mk c (readable w) (writable w) (disk_full w) (log w).

Definition emit (ev : event) (w : t) : t :=
  mk (file w) (readable w) (writable w) (disk_full w) (log w ++ [ev]).

(** [os.path.exists(HIGHSCORE_FILE)]. *)
Definition path_exists : M bool :=
  fun w => (Py.Ok (bool_decide (is_Some (file w))), w).

(** [open(HIGHSCORE_FILE, 'r')] and reading the text. *)
Definition open_read : M content :=
  fun w =>
    match file w with
    | None => (Py.Err (Py.OSError "No such file or directory"), w)
    | Some c =>
      if readable w then (Py.Ok c, w)
      else (Py.Err (Py.OSError "Permission denied"), w)
    end.

(** [json.load(file)]. *)
Definition json_load (c : content) : Py.result Py.json :=
  match c with
  | Text j => Py.Ok j
  | Garbage => Py.Err Py.JSONDecodeError
  end.

(** [open(HIGHSCORE_FILE, 'w')]: creates or truncates the file. *)
Definition open_write : M unit :=
  fun w =>
    if writable w then (Py.Ok tt, set_file (Some Garbage) w)
    else (Py.Err (Py.OSError "Permission denied"), w).

(** [json.dump(data, file, indent=4)] and closing the file. *)
Definition json_dump (data : Py.json) : M unit :=
  fun w =>
    if disk_full w then (Py.Err (Py.OSError "No space left on device"), w)
    else (Py.Ok tt, emit (Dumped data) (set_file (Some (Text data)) w)).

Definition print (msg : string) : M unit :=
  fun w => (Py.Ok tt, emit (Printed msg) w).

(** How many times a value reached the file. *)
Definition is_dump (ev : event) : bool :=
  match ev with
  | Dumped _ => true
  | Printed _ => false
  end.

Definition dumps (w : t) : nat := length (List.filter is_dump (log w)).

End World.

Notation "'let!' x := m 'in' k" := (World.bind m (fun x => k))
  (at level 10, x name, m at level 100, k at level 200).

(** ** services/score_service.py *)

Module ScoreService.

Record t := mk {
  current_score : Z;
  high_score : Py.json
}.

Definition load_high_score : World.M Py.json :=
  let! present := World.path_exists in
  if negb present then World.ret (Py.JInt 0)
  else
    World.try_except
      (let! text := World.open_read in
       let! data := World.lift (World.json_load text) in
       World.lift (Py.get data "high_score" (Py.JInt 0)))
      (fun e =>
         let! _ := World.print "Warning: Could not load high score" in
         World.ret (Py.JInt 0)).

Definition init : World.M t :=
  let! loaded := load_high_score in
  World.ret (mk 0 loaded).

Definition add_points (points : Z) (s : t) : Py.result t :=
  let current := current_score s + points in
  let* beaten := Py.int_gt current (high_score s) in
  if beaten then Py.Ok (mk current (Py.JInt current))
  else Py.Ok (mk current (high_score s)).

Definition get_current_score (s : t) : Z := current_score s.

Definition get_high_score (s : t) : Py.json := high_score s.

Definition reset_score (s : t) : t := mk 0 (high_score s).

Definition save_high_score (s : t) : World.M unit :=
  World.try_except
    (let data := Py.JObj [("high_score"%string, high_score s)] in
     let! _ := World.open_write in
     World.json_dump data)
    (fun e => World.print "Warning: Could not save high score").

Definition is_high_score (s : t) : Py.result bool :=
  Py.int_ge (current_score s) (high_score s).

End ScoreService.

(** ** Sprites, identities and groups (pygame.sprite) *)

(** The enemy and projectile objects of the heap. *)
Inductive Sprite :=
| SEnemy (e : Enemy.t)
| SProjectile (p : Projectile.t).

(** A reference to a sprite object: the engine's current [self.player], or
    an object of the heap. *)
Inductive ref :=
| RPlayer
| RObj (id : nat).

#[global] Instance ref_eq_dec : EqDecision ref.
Proof. solve_decision. Defined.

(** The positional arguments of a call [sprite.update(args...)]. *)
Inductive arg :=
| AInput (input_state : InputState)
| AFloat (q : Q).

(** [Group.add(sprite)]: a group holds a sprite at most once. *)
Definition Group_add (r : ref) (group : list ref) : list ref :=
  if decide (r ∈ group) then group else group ++ [r].

(** [Group.remove(sprite)]. *)
Definition Group_remove (r : ref) (group : list ref) : list ref :=
  filter (fun s => s <> r) group.

(** The draws of [random] that one call of [spawn_enemy] consumes:
    [randint(margin, SCREEN_WIDTH - margin)], the [random()] in [0, 1)
    behind [uniform(a, b) = a + (b - a) * random()],
    [randint(ENEMY_SIZE_MIN, ENEMY_SIZE_MAX)], and the two [uniform] draws
    of the [Enemy] constructor. *)
Record Draw := {
  draw_x : Z;
  draw_unit : Q;
  draw_size : Z;
  draw_rotation : Q;
  draw_rotation_speed : Q
}.

(** ** services/game_engine.py *)

Module GameEngine.

Record t := mk {
  objects : gmap nat Sprite;
  next_id : nat;
  all_sprites : list ref;
  player_projectiles : list ref;
  enemies : list ref;
  score_service : ScoreService.t;
  player : Player.t;
  enemy_spawn_timer : Q;
  current_spawn_rate : Q;
  next_difficulty_score : Z;
  current_enemy_speed_min : Q;
  current_enemy_speed_max : Q;
  player_invulnerable_timer : Q;
  delta_time : Q
}.

(** *** Field updates *)

Definition set_groups (a p e : list ref) (g : t) : t :=
  mk (objects g) (next_id g) a p e (score_service g) (player g)
     (enemy_spawn_timer g) (current_spawn_rate g) (next_difficulty_score g)
     (current_enemy_speed_min g) (current_enemy_speed_max g)
     (player_invulnerable_timer g) (delta_time g).

Definition set_heap (o : gmap nat Sprite) (n : nat) (g : t) : t :=
  mk o n (all_sprites g) (player_projectiles g) (enemies g) (score_service g) (player g)
     (enemy_spawn_timer g) (current_spawn_rate g) (next_difficulty_score g)
     (current_enemy_speed_min g) (current_enemy_speed_max g)
     (player_invulnerable_timer g) (delta_time g).

Definition set_score_service (s : ScoreService.t) (g : t) : t :=
  mk (objects g) (next_id g) (all_sprites g) (player_projectiles g) (enemies g) s (player g)
     (enemy_spawn_timer g) (current_spawn_rate g) (next_difficulty_score g)
     (current_enemy_speed_min g) (current_enemy_speed_max g)
     (player_invulnerable_timer g) (delta_time g).

Definition set_player (p : Player.t) (g : t) : t :=
  mk (objects g) (next_id g) (all_sprites g) (player_projectiles g) (enemies g)
     (score_service g) p
     (enemy_spawn_timer g) (current_spawn_rate g) (next_difficulty_score g)
     (current_enemy_speed_min g) (current_enemy_speed_max g)
     (player_invulnerable_timer g) (delta_time g).

Definition set_enemy_spawn_timer (q : Q) (g : t) : t :=
  mk (objects g) (next_id g) (all_sprites g) (player_projectiles g) (enemies g)
     (score_service g) (player g)
     q (current_spawn_rate g) (next_difficulty_score g)
     (current_enemy_speed_min g) (current_enemy_speed_max g)
     (player_invulnerable_timer g) (delta_time g).

Definition set_difficulty (rate : Q) (next : Z) (speed_min speed_max : Q) (g : t) : t :=
  mk (objects g) (next_id g) (all_sprites g) (player_projectiles g) (enemies g)
     (score_service g) (player g)
     (enemy_spawn_timer g) rate next speed_min speed_max
     (player_invulnerable_timer g) (delta_time g).

Definition set_player_invulnerable_timer (q : Q) (g : t) : t :=
  mk (objects g) (next_id g) (all_sprites g) (player_projectiles g) (enemies g)
     (score_service g) (player g)
     (enemy_spawn_timer g) (current_spawn_rate g) (next_difficulty_score g)
     (current_enemy_speed_min g) (current_enemy_speed_max g)
     q (delta_time g).

Definition set_delta_time (q : Q) (g : t) : t :=
  mk (objects g) (next_id g) (all_sprites g) (player_projectiles g) (enemies g)
     (score_service g) (player g)
     (enemy_spawn_timer g) (current_spawn_rate g) (next_difficulty_score g)
     (current_enemy_speed_min g) (current_enemy_speed_max g)
     (player_invulnerable_timer g) q.

(** *** Sprite objects *)

(** Constructing a sprite object: it gets the next free identity. *)
Definition alloc (s : Sprite) (g : t) : ref * t :=
  (RObj (next_id g), set_heap (<[next_id g := s]> (objects g)) (S (next_id g)) g).

(** [sprite.rect]. *)
Definition rect_of (g : t) (r : ref) : option Rect.t :=
  match r with
  | RPlayer => Some (Player.rect (player g))
  | RObj id =>
    match objects g !! id with
    | Some (SEnemy e) => Some (Enemy.rect e)
    | Some (SProjectile p) => Some (Projectile.rect p)
    | None => None
    end
  end.

(** [sprite.kill()]: the sprite leaves every group that holds it. *)
Definition kill (r : ref) (g : t) : t :=
  set_groups (Group_remove r (all_sprites g))
             (Group_remove r (player_projectiles g))
             (Group_remove r (enemies g)) g.

(** [sprite.update(args...)], dispatched on the class of the object.
    [Player.update] takes [(input_state, delta_time)], [Enemy.update] and
    [Projectile.update] take [(delta_time)]; any other argument list is a
    [TypeError]. *)
Definition call_update `{Transform} (args : list arg) (r : ref) (g : t) : Py.result t :=
  match r with
  | RPlayer =>
    match args with
    | [AInput input_state; AFloat dt] =>
      Py.Ok (set_player (Player.update input_state dt (player g)) g)
    | [_] =>
      Py.Err (Py.TypeError
        "Player.update() missing 1 required positional argument: 'delta_time'")
    | _ => Py.Err (Py.TypeError "Player.update(): bad arguments")
    end
  | RObj id =>
    match objects g !! id with
    | Some (SEnemy e) =>
      match args with
      | [AFloat dt] =>
        Py.Ok (set_heap (<[id := SEnemy (Enemy.update dt e)]> (objects g)) (next_id g) g)
      | _ => Py.Err (Py.TypeError "Enemy.update(): bad arguments")
      end
    | Some (SProjectile p) =>
      match args with
      | [AFloat dt] =>
        Py.Ok (set_heap (<[id := SProjectile (Projectile.update dt p)]> (objects g)) (next_id g) g)
      | _ => Py.Err (Py.TypeError "Projectile.update(): bad arguments")
      end
    | None => Py.Ok g
    end
  end.

(** [Group.update(args...)]: calls [update(args...)] on every sprite of a
    snapshot of the group, in order. *)
Fixpoint Group_update `{Transform} (args : list arg) (snapshot : list ref) (g : t) : Py.result t :=
  match snapshot with
  | [] => Py.Ok g
  | s :: rest =>
    let* g := call_update args s g in
    Group_update args rest g
  end.

(** *** pygame.sprite.spritecollide and groupcollide

    A group is passed by reference, as the field of the engine that holds
    it. *)

Definition collides (g : t) (r : Rect.t) (s : ref) : bool :=
  match rect_of g s with
  | Some rs => Rect.colliderect r rs
  | None => false
  end.

(** [spritecollide(sprite, group, dokill)], [r] being [sprite.rect]:
    [for s in group.sprites(): if sprite.rect.colliderect(s.rect):
    (s.kill() if dokill); crashed.append(s)]. *)
Fixpoint spritecollide_loop (r : Rect.t) (dokill : bool) (snapshot : list ref) (g : t)
  : list ref * t :=
  match snapshot with
  | [] => ([], g)
  | s :: rest =>
    if collides g r s then
      let g := if dokill then kill s g else g in
      let '(crashed, g) := spritecollide_loop r dokill rest g in
      (s :: crashed, g)
    else spritecollide_loop r dokill rest g
  end.

Definition spritecollide (r : Rect.t) (group : t -> list ref) (dokill : bool) (g : t)
  : list ref * t :=
  spritecollide_loop r dokill (group g) g.

(** [groupcollide(groupa, groupb, dokilla, dokillb)]:
    [for a in groupa.sprites(): collision = spritecollide(a, groupb, dokillb);
    if collision: crashed[a] = collision; (a.kill() if dokilla)].  The
    result dict is kept as the list of its items, in insertion order. *)
Fixpoint groupcollide_loop (groupb : t -> list ref) (dokilla dokillb : bool)
    (snapshot : list ref) (g : t) : list (ref * list ref) * t :=
  match snapshot with
  | [] => ([], g)
  | a :: rest =>
    match rect_of g a with
    | None => groupcollide_loop groupb dokilla dokillb rest g
    | Some ra =>
      let '(collision, g) := spritecollide ra groupb dokillb g in
      match collision with
      | [] => groupcollide_loop groupb dokilla dokillb rest g
      | _ :: _ =>
        let g := if dokilla then kill a g else g in
        let '(crashed, g) := groupcollide_loop groupb dokilla dokillb rest g in
        ((a, collision) :: crashed, g)
      end
    end
  end.

Definition groupcollide (groupa groupb : t -> list ref) (dokilla dokillb : bool) (g : t)
  : list (ref * list ref) * t :=
  groupcollide_loop groupb dokilla dokillb (groupa g) g.

(** [collision_service.check_group_collision]. *)
Definition check_group_collision (group1 group2 : t -> list ref)
    (destroy_first destroy_second : bool) (g : t) : list (ref * list ref) * t :=
  groupcollide group1 group2 destroy_first destroy_second g.

(** [collision_service.check_collision_with_group]: [spritecollide] of a
    dummy sprite carrying [rect], without killing. *)
Definition check_collision_with_group (rect : Rect.t) (sprite_group : t -> list ref) (g : t)
  : list ref * t :=
  spritecollide rect sprite_group false g.

(** *** The engine's operations *)

Definition start_player : Player.t :=
  let start_x := (inject_Z Config.SCREEN_WIDTH * Config.PLAYER_START_X_RATIO)%Q in
  let start_y := (inject_Z Config.SCREEN_HEIGHT * Config.PLAYER_START_Y_RATIO)%Q in
  Player.init start_x start_y.

(** The engine [GameEngine()] builds around its score service. *)
Definition fresh (score_service : ScoreService.t) : t :=
  mk ∅ 0%nat (Group_add RPlayer []) [] [] score_service start_player
     0 Config.ENEMY_SPAWN_RATE Config.DIFFICULTY_INCREASE_INTERVAL
     Config.ENEMY_SPEED_MIN Config.ENEMY_SPEED_MAX 0 0.

(** [GameEngine()]. *)
Definition init : World.M t :=
  let! score_service := ScoreService.init in
  World.ret (fresh score_service).

Definition reset (g : t) : t :=
  let g := set_groups [] [] [] g in
  let g := set_score_service (ScoreService.reset_score (score_service g)) g in
  let g := set_player start_player g in
  let g := set_groups (Group_add RPlayer (all_sprites g)) (player_projectiles g) (enemies g) g in
  let g := set_enemy_spawn_timer 0 g in
  let g := set_difficulty Config.ENEMY_SPAWN_RATE Config.DIFFICULTY_INCREASE_INTERVAL
             Config.ENEMY_SPEED_MIN Config.ENEMY_SPEED_MAX g in
  set_player_invulnerable_timer 0 g.

Definition spawn_enemy (rnd : Draw) (g : t) : t :=
  let x := draw_x rnd in
  let y := - Config.ENEMY_SIZE_MAX in
  let speed :=
    (current_enemy_speed_min g
     + (current_enemy_speed_max g - current_enemy_speed_min g) * draw_unit rnd)%Q in
  let size := draw_size rnd in
  let enemy := Enemy.init x y speed size (draw_rotation rnd) (draw_rotation_speed rnd) in
  let '(r, g) := alloc (SEnemy enemy) g in
  let g := set_groups (all_sprites g) (player_projectiles g) (Group_add r (enemies g)) g in
  set_groups (Group_add r (all_sprites g)) (player_projectiles g) (enemies g) g.

(** The scoring loops of [check_collisions]:
    [for projectile, hit_enemies in hits.items(): for enemy in hit_enemies:
    add_points(ENEMY_POINTS)]. *)
Fixpoint award_enemies (hit_enemies : list ref) (s : ScoreService.t) : Py.result ScoreService.t :=
  match hit_enemies with
  | [] => Py.Ok s
  | _ :: rest =>
    let* s := ScoreService.add_points Config.ENEMY_POINTS s in
    award_enemies rest s
  end.

Fixpoint award (hits : list (ref * list ref)) (s : ScoreService.t) : Py.result ScoreService.t :=
  match hits with
  | [] => Py.Ok s
  | (_, hit_enemies) :: rest =>
    let* s := award_enemies hit_enemies s in
    award rest s
  end.

(** [check_collisions], first part: projectiles hit enemies. *)
Definition check_collisions_projectiles (g : t) : Py.result t :=
  let '(hits, g) := check_group_collision player_projectiles enemies true true g in
  let* s := award hits (score_service g) in
  Py.Ok (set_score_service s g).

Fixpoint kill_each (sprites : list ref) (g : t) : t :=
  match sprites with
  | [] => g
  | s :: rest => kill_each rest (kill s g)
  end.

(** [check_collisions], second part: enemies hit the player. *)
Definition check_collisions_player (g : t) : t :=
  if Qle_bool (player_invulnerable_timer g) 0 then
    let '(player_hits, g) := spritecollide (Player.rect (player g)) enemies false g in
    match player_hits with
    | [] => g
    | _ :: _ =>
      let g := set_player (Player.take_damage (player g)) g in
      let g := set_player_invulnerable_timer Config.PLAYER_INVULNERABILITY_TIME g in
      kill_each player_hits g
    end
  else g.

Definition check_collisions (g : t) : Py.result t :=
  let* g := check_collisions_projectiles g in
  Py.Ok (check_collisions_player g).

Fixpoint cleanup_loop (margin : Z) (snapshot : list ref) (g : t) : t :=
  match snapshot with
  | [] => g
  | s :: rest =>
    match rect_of g s with
    | Some r =>
      if collision_service.check_out_of_bounds r Config.SCREEN_WIDTH Config.SCREEN_HEIGHT margin
      then cleanup_loop margin rest (kill s g)
      else cleanup_loop margin rest g
    | None => cleanup_loop margin rest g
    end
  end.

Definition cleanup_sprites (g : t) : t :=
  let margin := 100 in
  let g := cleanup_loop margin (player_projectiles g) g in
  cleanup_loop margin (enemies g) g.

(** The [print] of the new spawn rate is left out. *)
Definition update_difficulty (g : t) : t :=
  let current_score := ScoreService.get_current_score (score_service g) in
  if next_difficulty_score g <=? current_score then
    set_difficulty
      (current_spawn_rate g * Config.SPAWN_RATE_MULTIPLIER)%Q
      (next_difficulty_score g + Config.DIFFICULTY_INCREASE_INTERVAL)
      (current_enemy_speed_min g * Config.ENEMY_SPEED_MULTIPLIER)%Q
      (current_enemy_speed_max g * Config.ENEMY_SPEED_MULTIPLIER)%Q
      g
  else g.

(** The steps of [update], in the order of the source. *)

(** [if input_state["shoot"] and self.player.can_shoot(): ...]. *)
Definition update_shoot (input_state : InputState) (g : t) : t :=
  if shoot input_state && Player.can_shoot (player g) then
    let '(projectile, p) := Player.shoot (player g) in
    let g := set_player p g in
    match projectile with
    | Some pr =>
      let '(r, g) := alloc (SProjectile pr) g in
      let g := set_groups (all_sprites g) (Group_add r (player_projectiles g)) (enemies g) g in
      set_groups (Group_add r (all_sprites g)) (player_projectiles g) (enemies g) g
    | None => g
    end
  else g.

(** [=== SPAWN ENEMIES ===]. *)
Definition update_spawn (rnd : Draw) (g : t) : t :=
  let g := set_enemy_spawn_timer (enemy_spawn_timer g + delta_time g)%Q g in
  if Qle_bool (current_spawn_rate g) (enemy_spawn_timer g) then
    let g := spawn_enemy rnd g in
    set_enemy_spawn_timer 0 g
  else g.

(** [=== UPDATE INVULNERABILITY TIMER ===]. *)
Definition update_invulnerability (g : t) : t :=
  if Py.Qlt_bool 0 (player_invulnerable_timer g) then
    set_player_invulnerable_timer (player_invulnerable_timer g - delta_time g)%Q g
  else g.

(** Everything [update] does after [self.all_sprites.update(...)]. *)
Definition update_from_spawn (rnd : Draw) (g : t) : Py.result t :=
  let g := update_spawn rnd g in
  let* g := check_collisions g in
  let g := cleanup_sprites g in
  let g := update_difficulty g in
  Py.Ok (update_invulnerability g).

(** [update(input_state)].  [tick] is the number of milliseconds
    [self.clock.tick(FPS)] returns and [rnd] the draws a spawn would use. *)
Definition update `{Transform} (input_state : InputState) (tick : Z) (rnd : Draw) (g : t)
  : Py.result t :=
  let g := set_delta_time (inject_Z tick / 1000)%Q g in
  let* g := call_update [AInput input_state; AFloat (delta_time g)] RPlayer g in
  let g := update_shoot input_state g in
  let* g := Group_update [AFloat (delta_time g)] (all_sprites g) g in
  update_from_spawn rnd g.

Definition is_game_over (g : t) : World.M bool :=
  let is_over := Player.lives (player g) <=? 0 in
  if is_over then
    let! _ := ScoreService.save_high_score (score_service g) in
    World.ret is_over
  else World.ret is_over.

Definition get_score (g : t) : Z :=
  ScoreService.get_current_score (score_service g).

End GameEngine.

(** ** main.py: the game loop

    Drawing is left out.  One turn of [while running] is [frame]: the
    events of the frame are handled in order, then the engine is updated if
    the game is being played. *)

Module Main.

(** [config.GameState]. *)
Inductive GameState :=
| MENU
| PLAYING
| PAUSED
| GAME_OVER.

(** The keys the loop tells apart. *)
Inductive Key :=
| K_ESCAPE
| K_SPACE
| K_RETURN
| K_other.

Inductive Event :=
| QUIT
| KEYDOWN (key : Key)
| OtherEvent.

Record t := mk {
  game_state : GameState;
  running : bool;
  game_engine : GameEngine.t
}.

(** [event.key in (pygame.K_SPACE, pygame.K_RETURN)]. *)
Definition confirms (key : Key) : bool :=
  match key with
  | K_SPACE | K_RETURN => true
  | _ => false
  end.

(** The body of [for event in pygame.event.get()]. *)
Definition handle_event (event : Event) (m : t) : t :=
  let m :=
    match event with
    | QUIT => mk (game_state m) false (game_engine m)
    | _ => m
    end in
  match event with
  | KEYDOWN key =>
    let m :=
      match key with
      | K_ESCAPE =>
        match game_state m with
        | PLAYING => mk PAUSED (running m) (game_engine m)
        | PAUSED => mk PLAYING (running m) (game_engine m)
        | _ => m
        end
      | _ => m
      end in
    let m :=
      match game_state m with
      | MENU =>
        if confirms key
        then mk PLAYING (running m) (GameEngine.reset (game_engine m))
        else m
      | _ => m
      end in
    let m :=
      match game_state m with
      | GAME_OVER =>
        if confirms key then mk MENU (running m) (game_engine m) else m
      | _ => m
      end in
    m
  | _ => m
  end.

Fixpoint handle_events (events : list Event) (m : t) : t :=
  match events with
  | [] => m
  | event :: rest => handle_events rest (handle_event event m)
  end.

(** One turn of the loop; [input_state], [tick] and [rnd] are what the
    keyboard, the engine's clock and [random] would deliver. *)
Definition frame `{Transform} (events : list Event)
    (input_state : InputState) (tick : Z) (rnd : Draw) (m : t) : World.M t :=
  let m := handle_events events m in
  match game_state m with
  | PLAYING =>
    let! g := World.lift (GameEngine.update input_state tick rnd (game_engine m)) in
    let! over := GameEngine.is_game_over g in
    World.ret (if over then mk GAME_OVER (running m) g else mk (game_state m) (running m) g)
  | _ => World.ret m
  end.

End Main.

(** ** Concrete inputs used by the examples below *)

Module Sample.

(** A rotation that keeps the bounding box of the square. *)
Definition no_rotation : Transform := {| rotate_size := fun size _ => (size, size) |}.

(** No high-score file yet; the disk works. *)
Definition first_run : World.t := World.mk None true true false [].

Definition no_keys : InputState :=
  {| move_left := false; move_right := false; move_up := false;
     move_down := false; shoot := false |}.

(** A spawn at x = 400 of a 30-pixel enemy of middling speed. *)
Definition centre_draw : Draw :=
  {| draw_x := 400; draw_unit := 1 # 2; draw_size := 30;
     draw_rotation := 0; draw_rotation_speed := 0 |}.

(** The engine of a first run, right after construction. *)
Definition engine : GameEngine.t :=
  GameEngine.fresh (ScoreService.mk 0 (Py.JInt 0)).

(** The same engine after the player took three hits. *)
Definition engine_over : GameEngine.t :=
  GameEngine.set_player
    (Player.take_damage (Player.take_damage (Player.take_damage (GameEngine.player engine))))
    engine.

(** An engine whose score jumped to 250 before the first difficulty
    check. *)
Definition engine_250 : GameEngine.t :=
  GameEngine.set_score_service (ScoreService.mk 250 (Py.JInt 250)) engine.

(** A score service holding a high score of 500. *)
Definition score_500 : ScoreService.t := ScoreService.mk 500 (Py.JInt 500).

(** The projectile [Player.shoot] would fire from (400, 300). *)
Definition bullet : Projectile.t :=
  Projectile.init 400 300 0 (inject_Z (- Config.PROJECTILE_SPEED)).

(** Four frames of 17 ms each. *)
Definition four_frames : list Q := [17 # 1000; 17 # 1000; 17 # 1000; 17 # 1000].

(** A player one frame before its shooting cooldown runs out. *)
Definition cooling_player : Player.t :=
  Player.mk (Player.rect (GameEngine.player engine)) 3 3 (1 # 100) 0 255.

(** Two projectiles, 10 pixels apart, inside the box of one enemy. *)
Definition engine_two_bullets : GameEngine.t :=
  let heap : gmap nat Sprite :=
    <[0%nat := SProjectile (Projectile.mk (Rect.mk 398 100 4 12) 0 (-8))]>
      (<[1%nat := SProjectile (Projectile.mk (Rect.mk 398 110 4 12) 0 (-8))]>
         (<[2%nat := SEnemy (Enemy.mk (Rect.mk 385 95 30 30) 2 0 0 30)]> ∅)) in
  GameEngine.set_groups [RPlayer; RObj 0; RObj 1; RObj 2] [RObj 0; RObj 1] [RObj 2]
    (GameEngine.set_heap heap 3%nat engine).

(** A projectile about to leave through the top edge, in a frame of 16 ms
    in which the spawn timer comes due. *)
Definition engine_spawn_due : GameEngine.t :=
  let heap : gmap nat Sprite :=
    <[0%nat := SProjectile (Projectile.mk (Rect.mk 398 (-50) 4 12) 0 (-8))]> ∅ in
  GameEngine.set_delta_time (16 # 1000)
    (GameEngine.set_enemy_spawn_timer (149 # 100)
       (GameEngine.set_groups [RPlayer; RObj 0] [RObj 0] []
          (GameEngine.set_heap heap 1%nat engine))).



(** An enemy that reached the player of a fresh engine. *)
Definition engine_rammed : GameEngine.t :=
  let heap : gmap nat Sprite :=
    <[0%nat := SEnemy (Enemy.mk (Rect.mk 385 480 30 30) 2 0 0 30)]>
      (<[1%nat := SEnemy (Enemy.mk (Rect.mk 395 470 30 30) 2 0 0 30)]>
         (<[2%nat := SEnemy (Enemy.mk (Rect.mk 100 100 30 30) 2 0 0 30)]> ∅)) in
  GameEngine.set_groups [RPlayer; RObj 0; RObj 1; RObj 2] [] [RObj 0; RObj 1; RObj 2]
    (GameEngine.set_heap heap 3%nat engine).

(** A save file somebody edited: the high score is a string. *)
Definition edited_file : World.t :=
  World.mk (Some (World.Text (Py.JObj [("high_score"%string, Py.JStr "lots")])))
           true true false [].

(** A save file somebody edited: the high score is negative. *)
Definition negative_file : World.t :=
  World.mk (Some (World.Text (Py.JObj [("high_score"%string, Py.JInt (-3))])))
           true true false [].

(** A save file of an earlier session, on a disk that has run full. *)
Definition full_disk : World.t :=
  World.mk (Some (World.Text (Py.JObj [("high_score"%string, Py.JInt 500)])))
           true true true [].

(** The same save file when it may not be written. *)
Definition read_only : World.t :=
  World.mk (Some (World.Text (Py.JObj [("high_score"%string, Py.JInt 500)])))
           true false false [].

(** An enemy on top of the player, with a projectile inside it. *)
Definition engine_shot_in_time : GameEngine.t :=
  let heap : gmap nat Sprite :=
    <[0%nat := SProjectile (Projectile.mk (Rect.mk 398 485 4 12) 0 (-8))]>
      (<[1%nat := SEnemy (Enemy.mk (Rect.mk 385 480 30 30) 2 0 0 30)]> ∅) in
  GameEngine.set_groups [RPlayer; RObj 0; RObj 1] [RObj 0] [RObj 1]
    (GameEngine.set_heap heap 2%nat engine).

(** The keys of a frame in which only the space bar is held. *)
Definition space_held : InputState :=
  {| move_left := false; move_right := false; move_up := false;
     move_down := false; shoot := true |}.

(** The program showing its menu, before the first game. *)
Definition at_menu : Main.t := Main.mk Main.MENU true engine.

(** The two-projectile engine with the edited save file's high score. *)
Definition engine_bad_high_score : GameEngine.t :=
  GameEngine.set_score_service (ScoreService.mk 0 (Py.JStr "lots")) engine_two_bullets.

(** A finished game with 120 points, the best so far. *)
Definition engine_over_120 : GameEngine.t :=
  GameEngine.set_score_service (ScoreService.mk 120 (Py.JInt 120)) engine_over.

End Sample.

(** ** Notions used in the statements *)

(** The exception of a call [Player.update(delta_time)]. *)
Definition missing_delta_time : Py.exn :=
  Py.TypeError "Player.update() missing 1 required positional argument: 'delta_time'".

(** A value that can stand for a high score: a non-negative integer of
    32 bits. *)
Definition is_score (v : Py.json) : Prop :=
  match v with
  | Py.JInt n => 0 <= n < 2 ^ 32
  | _ => False
  end.

(** A save file from which nothing can be read: unreadable, not JSON, or
    JSON that is not an object. *)
Definition unparsable (w : World.t) : Prop :=
  match World.file w with
  | None => False
  | Some World.Garbage => True
  | Some (World.Text (Py.JObj _)) => World.readable w = false
  | Some (World.Text _) => True
  end.

(** A corrupt save file: one from which nothing can be read, or a readable
    JSON object whose ["high_score"] is not a score. *)
Definition corrupt (w : World.t) : Prop :=
  unparsable w \/
  exists l,
    World.file w = Some (World.Text (Py.JObj l)) /\
    World.readable w = true /\
    ~ is_score (Py.dict_get l "high_score" (Py.JInt 0)).

(** The document [save_high_score] writes. *)
Definition saved_document (v : Py.json) : World.content :=
  World.Text (Py.JObj [("high_score"%string, v)]).




(** One [Projectile.update] per frame, for the frames of the given
    durations. *)
Fixpoint fly (delta_times : list Q) (p : Projectile.t) : Projectile.t :=
  match delta_times with
  | [] => p
  | dt :: rest => fly rest (Projectile.update dt p)
  end.

Fixpoint total (delta_times : list Q) : Q :=
  match delta_times with
  | [] => 0
  | dt :: rest => (dt + total rest)%Q
  end.

(** The difficulty values never turn negative. *)
Definition difficulty_in_range (g : GameEngine.t) : Prop :=
  (0 <= GameEngine.current_spawn_rate g)%Q /\
  (0 <= GameEngine.current_enemy_speed_min g)%Q /\
  (0 <= GameEngine.current_enemy_speed_max g)%Q.

(** The first steps of [update], up to and including
    [self.all_sprites.update(self.delta_time)]: what runs before the spawn
    step. *)
Definition update_to_sprites `{Transform} (input_state : InputState) (tick : Z)
    (g : GameEngine.t) : Py.result GameEngine.t :=
  let g := GameEngine.set_delta_time (inject_Z tick / 1000)%Q g in
  let* g := GameEngine.call_update
              [AInput input_state; AFloat (GameEngine.delta_time g)] RPlayer g in
  let g := GameEngine.update_shoot input_state g in
  GameEngine.Group_update [AFloat (GameEngine.delta_time g)] (GameEngine.all_sprites g) g.

(** The bounding boxes of two sprites overlap. *)
Definition overlap (g : GameEngine.t) (a b : ref) : bool :=
  match GameEngine.rect_of g a with
  | Some ra => GameEngine.collides g ra b
  | None => false
  end.

(** The sprites a [groupcollide] with both kill flags set removed: the keys
    of the result and the members of its lists. *)
Fixpoint killed (hits : list (ref * list ref)) : list ref :=
  match hits with
  | [] => []
  | (a, collision) :: rest => a :: collision ++ killed rest
  end.

(** The members of a group that come before [p]: [groupcollide] walks the
    group in this order. *)
Fixpoint before (group : list ref) (p : ref) : list ref :=
  match group with
  | [] => []
  | q :: rest => if decide (q = p) then [] else q :: before rest p
  end.

(** How many sprites the lists of a [groupcollide] result hold. *)
Fixpoint hits_total (hits : list (ref * list ref)) : nat :=
  match hits with
  | [] => 0%nat
  | (_, collision) :: rest => (length collision + hits_total rest)%nat
  end.

(** Two engine states that differ in their groups only. *)
Definition same_sprites (g g' : GameEngine.t) : Prop :=
  g' = GameEngine.set_groups (GameEngine.all_sprites g') (GameEngine.player_projectiles g')
         (GameEngine.enemies g') g.

(** A rectangle that lies within the screen. *)
Definition on_screen (r : Rect.t) (screen_width screen_height : Z) : Prop :=
  0 <= Rect.left r /\ Rect.right r <= screen_width /\
  0 <= Rect.top r /\ Rect.bottom r <= screen_height.

(** The frames a player lives through: the keys and the duration of each. *)
Fixpoint play (frames : list (InputState * Q)) (p : Player.t) : Player.t :=
  match frames with
  | [] => p
  | (input_state, dt) :: rest => play rest (Player.update input_state dt p)
  end.

(** [update_difficulty] called in [n] successive frames. *)
Fixpoint escalate (n : nat) (g : GameEngine.t) : GameEngine.t :=
  match n with
  | O => g
  | S n' => escalate n' (GameEngine.update_difficulty g)
  end.

(** The ranges [spawn_enemy] draws from. *)
Definition draw_in_range (rnd : Draw) : Prop :=
  Config.ENEMY_SIZE_MAX <= draw_x rnd <= Config.SCREEN_WIDTH - Config.ENEMY_SIZE_MAX /\
  (0 <= draw_unit rnd)%Q /\ (draw_unit rnd <= 1)%Q /\
  Config.ENEMY_SIZE_MIN <= draw_size rnd <= Config.ENEMY_SIZE_MAX.

(** The horizontal step the keys ask for: [move_x] in [Player.update]. *)
Definition step_x (input_state : InputState) : Z :=
  let move_x := 0 in
  let move_x := if move_left input_state then move_x - Config.PLAYER_SPEED else move_x in
  if move_right input_state then move_x + Config.PLAYER_SPEED else move_x.

(** What [cleanup_sprites] tests on a sprite: its rectangle is more than
    100 pixels off the screen. *)
Definition outside (g : GameEngine.t) (s : ref) : bool :=
  match GameEngine.rect_of g s with
  | Some r =>
    collision_service.check_out_of_bounds r Config.SCREEN_WIDTH Config.SCREEN_HEIGHT 100
  | None => false
  end.

(** A C int of 32 bits, and a rectangle none of whose fields and edges
    leaves that range. *)
Definition c_int (z : Z) : Prop := - 2 ^ 31 <= z < 2 ^ 31.

Definition in_c_ints (r : Rect.t) : Prop :=
  c_int (Rect.x r) /\ c_int (Rect.y r) /\ c_int (Rect.w r) /\ c_int (Rect.h r) /\
  c_int (Rect.right r) /\ c_int (Rect.bottom r).


(** Case analysis on the integer comparisons of a goal, innermost first. *)
Ltac no_branch t :=
  lazymatch t with
  | context [if _ then _ else _] => fail
  | _ => idtac
  end.

Ltac rect_cases :=
  repeat (cbv zeta; cbn [Rect.x Rect.y Rect.w Rect.h];
          match goal with
          | |- context [?a <? ?b] =>
            no_branch a; no_branch b; destruct (Z.ltb_spec a b)
          | |- context [?a >? ?b] =>
            no_branch a; no_branch b; rewrite (Z.gtb_ltb a b); destruct (Z.ltb_spec b a)
          | |- context [?a =? ?b] =>
            no_branch a; no_branch b; destruct (Z.eqb_spec a b)
          end).

(** * Properties *)

(** ** [update] and the player sprite in [all_sprites] *)

Lemma elem_of_Group_add (r s : ref) (group : list ref) :
  s ∈ Group_add r group <-> s = r \/ s ∈ group.
Proof.
  unfold Group_add. destruct (decide (r ∈ group)) as [Hin | Hnin].
  - split; [auto | intros [-> | ?]; auto].
  - rewrite elem_of_app, list_elem_of_singleton. tauto.
Qed.

Lemma init_first_run :
  GameEngine.init Sample.first_run = (Py.Ok Sample.engine, Sample.first_run).
Proof. reflexivity. Qed.

Lemma update_shoot_all_sprites (input_state : InputState) (g : GameEngine.t) (r : ref) :
  r ∈ GameEngine.all_sprites g ->
  r ∈ GameEngine.all_sprites (GameEngine.update_shoot input_state g).
Proof.
  intros Hin. unfold GameEngine.update_shoot.
  destruct (shoot input_state && Player.can_shoot (GameEngine.player g)); [| exact Hin].
  destruct (Player.shoot (GameEngine.player g)) as [[pr |] p]; simpl; [| exact Hin].
  apply elem_of_Group_add. right. exact Hin.
Qed.

Lemma call_update_object_total `{Transform} (dt : Q) (id : nat) (g : GameEngine.t) :
  exists g', GameEngine.call_update [AFloat dt] (RObj id) g = Py.Ok g'.
Proof.
  simpl. destruct (GameEngine.objects g !! id) as [[e | p] |]; eauto.
Qed.

Lemma Group_update_raises `{Transform} (dt : Q) (snapshot : list ref) :
  forall g : GameEngine.t,
    RPlayer ∈ snapshot ->
    GameEngine.Group_update [AFloat dt] snapshot g = Py.Err missing_delta_time.
Proof.
  induction snapshot as [| s rest IH]; intros g Hin.
  - apply elem_of_nil in Hin. contradiction.
  - destruct s as [| id].
    + reflexivity.
    + apply elem_of_cons in Hin as [Heq | Hin]; [discriminate |].
      destruct (call_update_object_total dt id g) as [g' Hg'].
      cbn [GameEngine.Group_update]. rewrite Hg'. cbn [Py.bind]. apply IH, Hin.
Qed.

(** C1.  Whatever the keys, the clock tick and the random draws, [update]
    on an engine whose [all_sprites] holds the player raises a [TypeError]:
    [self.all_sprites.update(self.delta_time)] calls [Player.update] with
    the single argument [delta_time], and the method wants
    [(input_state, delta_time)].  The constructor and [reset] both put the
    player into [all_sprites], so no call of [update] completes. *)
Theorem update_raises_TypeError `{Transform}
    (input_state : InputState) (tick : Z) (rnd : Draw) (g : GameEngine.t) :
  RPlayer ∈ GameEngine.all_sprites g ->
  GameEngine.update input_state tick rnd g = Py.Err missing_delta_time.
Proof.
  intros Hin. unfold GameEngine.update.
  cbn [GameEngine.call_update Py.bind].
  rewrite Group_update_raises; [reflexivity |].
  apply update_shoot_all_sprites. exact Hin.
Qed.

Lemma update_raises_TypeError_first_frame :
  RPlayer ∈ GameEngine.all_sprites Sample.engine /\
  @GameEngine.update Sample.no_rotation Sample.no_keys 16 Sample.centre_draw Sample.engine
  = Py.Err missing_delta_time.
Proof.
  split.
  - left.
  - apply (@update_raises_TypeError Sample.no_rotation). left.
Defined.

Lemma reset_keeps_player_in_all_sprites (g : GameEngine.t) :
  RPlayer ∈ GameEngine.all_sprites (GameEngine.reset g).
Proof. left. Qed.

(** ** [is_game_over] and the high-score file *)

Lemma save_high_score_ok (s : ScoreService.t) (w : World.t) :
  World.writable w = true -> World.disk_full w = false ->
  ScoreService.save_high_score s w
  = (Py.Ok tt,
     World.emit (World.Dumped (Py.JObj [("high_score"%string, ScoreService.high_score s)]))
       (World.set_file (Some (saved_document (ScoreService.high_score s)))
          (World.set_file (Some World.Garbage) w))).
Proof.
  intros Hw Hd.
  unfold ScoreService.save_high_score, World.try_except, World.bind, World.open_write,
    World.json_dump.
  rewrite Hw. cbn. rewrite Hd. reflexivity.
Qed.

Lemma save_high_score_total (s : ScoreService.t) (w : World.t) :
  exists w', ScoreService.save_high_score s w = (Py.Ok tt, w').
Proof.
  unfold ScoreService.save_high_score, World.try_except, World.bind, World.open_write,
    World.json_dump, World.print.
  destruct (World.writable w); [| eauto].
  cbn. destruct (World.disk_full w); eauto.
Qed.

Lemma dumps_emit_Dumped (data : Py.json) (w : World.t) :
  World.dumps (World.emit (World.Dumped data) w) = S (World.dumps w).
Proof.
  unfold World.dumps, World.emit. cbn [World.log].
  rewrite List.filter_app, length_app. cbn. lia.
Qed.

(** C2, as the code has it.  [is_game_over] never raises and answers
    [lives <= 0]; a poll that answers false leaves the world alone, and
    every poll that answers true saves the high score again: on a working
    disk each such poll adds one write of the document
    [{"high_score": high_score}]. *)
Theorem is_game_over_saves_on_every_true_poll (g : GameEngine.t) (w : World.t) :
  fst (GameEngine.is_game_over g w) = Py.Ok (Player.lives (GameEngine.player g) <=? 0) /\
  (0 < Player.lives (GameEngine.player g) ->
     snd (GameEngine.is_game_over g w) = w) /\
  (Player.lives (GameEngine.player g) <= 0 ->
   World.writable w = true -> World.disk_full w = false ->
     World.dumps (snd (GameEngine.is_game_over g w)) = S (World.dumps w) /\
     World.file (snd (GameEngine.is_game_over g w))
     = Some (saved_document (ScoreService.high_score (GameEngine.score_service g)))).
Proof.
  unfold GameEngine.is_game_over.
  destruct (Z.leb_spec (Player.lives (GameEngine.player g)) 0) as [Hle | Hgt].
  - split; [| split; [lia |]].
    + destruct (save_high_score_total (GameEngine.score_service g) w) as [w' Hsave].
      unfold World.bind. rewrite Hsave. reflexivity.
    + intros _ Hw Hd. unfold World.bind. rewrite (save_high_score_ok _ _ Hw Hd).
      cbn [fst snd World.ret]. split; [| reflexivity].
      rewrite dumps_emit_Dumped. reflexivity.
  - cbn [fst snd World.ret]. split; [reflexivity |]. split; [reflexivity | lia].
Qed.

Lemma is_game_over_saves_on_every_true_poll_sample :
  Player.lives (GameEngine.player Sample.engine_over) <= 0 /\
  World.writable Sample.first_run = true /\
  World.disk_full Sample.first_run = false /\
  World.dumps (snd (GameEngine.is_game_over Sample.engine_over Sample.first_run)) = 1%nat.
Proof.
  assert (Hover : Player.lives (GameEngine.player Sample.engine_over) <= 0)
    by (vm_compute; discriminate).
  split; [exact Hover |]. split; [reflexivity |]. split; [reflexivity |].
  pose proof (is_game_over_saves_on_every_true_poll Sample.engine_over Sample.first_run)
    as (_ & _ & Hsaved).
  destruct (Hsaved Hover eq_refl eq_refl) as [Hdumps _]. exact Hdumps.
Defined.

(** C2, as the claim has it, fails: with no lives left, a second poll
    right after the first one writes the file a second time. *)
Lemma is_game_over_second_poll_saves_again :
  let w1 := snd (GameEngine.is_game_over Sample.engine_over Sample.first_run) in
  let w2 := snd (GameEngine.is_game_over Sample.engine_over w1) in
  Player.lives (GameEngine.player Sample.engine_over) = 0 /\
  fst (GameEngine.is_game_over Sample.engine_over Sample.first_run) = Py.Ok true /\
  fst (GameEngine.is_game_over Sample.engine_over w1) = Py.Ok true /\
  World.dumps w1 = 1%nat /\
  World.dumps w2 = 2%nat.
Proof. vm_compute. repeat split. Qed.

(** ** Timers and lives *)

Lemma Qlt_bool_true (a b : Q) : Py.Qlt_bool a b = true <-> (a < b)%Q.
Proof.
  unfold Py.Qlt_bool. rewrite negb_true_iff.
  destruct (Qle_bool b a) eqn:E.
  - apply Qle_bool_iff in E. split; [discriminate | intros Hlt; lra].
  - split; [intros _ | reflexivity].
    apply Qnot_le_lt. intros Hle. apply Qle_bool_iff in Hle. congruence.
Qed.

Lemma Qlt_bool_false (a b : Q) : Py.Qlt_bool a b = false <-> (b <= a)%Q.
Proof.
  unfold Py.Qlt_bool. rewrite negb_false_iff. apply Qle_bool_iff.
Qed.

Lemma Player_update_shoot_cooldown (input_state : InputState) (dt : Q) (p : Player.t) :
  Player.shoot_cooldown (Player.update input_state dt p)
  = if Py.Qlt_bool 0 (Player.shoot_cooldown p)
    then (Player.shoot_cooldown p - dt)%Q
    else Player.shoot_cooldown p.
Proof.
  unfold Player.update.
  destruct (Py.Qlt_bool 0 (Player.invulnerable_flash_timer p)); reflexivity.
Qed.

Lemma Player_update_flash_timer (input_state : InputState) (dt : Q) (p : Player.t) :
  Player.invulnerable_flash_timer (Player.update input_state dt p)
  = if Py.Qlt_bool 0 (Player.invulnerable_flash_timer p)
    then (Player.invulnerable_flash_timer p - dt)%Q
    else Player.invulnerable_flash_timer p.
Proof.
  unfold Player.update.
  destruct (Py.Qlt_bool 0 (Player.invulnerable_flash_timer p)); reflexivity.
Qed.

Lemma Player_update_lives (input_state : InputState) (dt : Q) (p : Player.t) :
  Player.lives (Player.update input_state dt p) = Player.lives p.
Proof.
  unfold Player.update.
  destruct (Py.Qlt_bool 0 (Player.invulnerable_flash_timer p)); reflexivity.
Qed.

(** C5, as the code has it.  No decrement is clamped.  Each of the three
    timers (the player's shot cooldown and flash timer, the engine's
    invulnerability timer) is lowered by exactly [delta_time] while it is
    strictly positive and is left as it is once it is [<= 0]: the new
    value is [timer - delta_time], not its maximum with zero, so a timer
    below [delta_time] ends below zero.  For a [delta_time >= 0] a timer
    never grows and one that was [>= 0] ends at [-delta_time] or above.
    [take_damage] lowers [lives] by exactly one, whatever their value, and
    [update] leaves them alone. *)
Theorem timers_decrease_unclamped
    (input_state : InputState) (dt : Q) (p : Player.t) (g : GameEngine.t) :
  (0 <= dt)%Q ->
  GameEngine.delta_time g = dt ->
  let c := Player.shoot_cooldown p in
  let c' := Player.shoot_cooldown (Player.update input_state dt p) in
  let f := Player.invulnerable_flash_timer p in
  let f' := Player.invulnerable_flash_timer (Player.update input_state dt p) in
  let i := GameEngine.player_invulnerable_timer g in
  let i' := GameEngine.player_invulnerable_timer (GameEngine.update_invulnerability g) in
  (((0 < c)%Q -> c' = (c - dt)%Q) /\ ((c <= 0)%Q -> c' = c) /\
   ((0 < c)%Q -> (c < dt)%Q -> (c' < 0)%Q) /\
   (c' <= c)%Q /\ ((0 <= c)%Q -> (- dt <= c')%Q)) /\
  (((0 < f)%Q -> f' = (f - dt)%Q) /\ ((f <= 0)%Q -> f' = f) /\
   ((0 < f)%Q -> (f < dt)%Q -> (f' < 0)%Q) /\
   (f' <= f)%Q /\ ((0 <= f)%Q -> (- dt <= f')%Q)) /\
  (((0 < i)%Q -> i' = (i - dt)%Q) /\ ((i <= 0)%Q -> i' = i) /\
   ((0 < i)%Q -> (i < dt)%Q -> (i' < 0)%Q) /\
   (i' <= i)%Q /\ ((0 <= i)%Q -> (- dt <= i')%Q)) /\
  Player.lives (Player.update input_state dt p) = Player.lives p /\
  Player.lives (Player.take_damage p) = Player.lives p - 1.
Proof.
  intros Hdt Hg c c' f f' i i'. subst c c' f f' i i'.
  rewrite Player_update_shoot_cooldown, Player_update_flash_timer, Player_update_lives.
  unfold GameEngine.update_invulnerability. rewrite Hg.
  split; [| split; [| split; [| split; reflexivity]]].
  - destruct (Py.Qlt_bool 0 (Player.shoot_cooldown p)) eqn:E.
    + apply Qlt_bool_true in E.
      split; [reflexivity |]. repeat split; intros; lra.
    + apply Qlt_bool_false in E.
      split; [intros Hpos; lra |]. split; [reflexivity |]. repeat split; intros; lra.
  - destruct (Py.Qlt_bool 0 (Player.invulnerable_flash_timer p)) eqn:E.
    + apply Qlt_bool_true in E.
      split; [reflexivity |]. repeat split; intros; lra.
    + apply Qlt_bool_false in E.
      split; [intros Hpos; lra |]. split; [reflexivity |]. repeat split; intros; lra.
  - destruct (Py.Qlt_bool 0 (GameEngine.player_invulnerable_timer g)) eqn:E.
    + apply Qlt_bool_true in E.
      cbn [GameEngine.player_invulnerable_timer GameEngine.set_player_invulnerable_timer].
      split; [reflexivity |]. repeat split; intros; lra.
    + apply Qlt_bool_false in E.
      split; [intros Hpos; lra |]. split; [reflexivity |]. repeat split; intros; lra.
Qed.

Lemma timers_decrease_unclamped_sample :
  (0 <= 16 # 1000)%Q /\
  GameEngine.delta_time (GameEngine.set_delta_time (16 # 1000) Sample.engine) = (16 # 1000) /\
  Player.shoot_cooldown (Player.update Sample.no_keys (16 # 1000) Sample.cooling_player)
  = (Player.shoot_cooldown Sample.cooling_player - (16 # 1000))%Q /\
  (Player.shoot_cooldown (Player.update Sample.no_keys (16 # 1000) Sample.cooling_player)
   < 0)%Q.
Proof.
  assert (Hdt : (0 <= 16 # 1000)%Q) by discriminate.
  split; [exact Hdt |]. split; [reflexivity |].
  pose proof (timers_decrease_unclamped Sample.no_keys (16 # 1000) Sample.cooling_player
                (GameEngine.set_delta_time (16 # 1000) Sample.engine) Hdt eq_refl) as Hall.
  cbv zeta in Hall. destruct Hall as [[Heq [_ [Hneg _]]] _].
  split; [apply Heq | apply Hneg]; reflexivity.
Defined.

(** C5, as the claim has it, fails: a cooldown of 0.01 s met by a frame of
    16 ms ends at -0.006 s, and a player without lives that is hit again
    has -1 lives. *)
Lemma shoot_cooldown_turns_negative :
  (0 <= Player.shoot_cooldown Sample.cooling_player)%Q /\
  (Player.shoot_cooldown (Player.update Sample.no_keys (16 # 1000) Sample.cooling_player)
   < 0)%Q /\
  Player.lives (GameEngine.player Sample.engine_over) = 0 /\
  Player.lives (Player.take_damage (GameEngine.player Sample.engine_over)) = -1.
Proof. vm_compute. repeat split; discriminate. Qed.

(** ** Difficulty *)

Lemma difficulty_in_range_fresh (s : ScoreService.t) :
  difficulty_in_range (GameEngine.fresh s).
Proof. repeat split; discriminate. Qed.

Lemma difficulty_in_range_reset (g : GameEngine.t) :
  difficulty_in_range (GameEngine.reset g).
Proof. repeat split; discriminate. Qed.

(** C6.  On an engine whose spawn interval and speed bounds are not
    negative (they start at 1.5, 1 and 3 and only [update_difficulty]
    changes them), one call of [update_difficulty] does not lower the next
    threshold, does not raise the spawn interval, lowers neither speed
    bound, and keeps all three non-negative.  It either changes nothing or
    applies exactly one escalation: the threshold moves by one interval and
    each value is multiplied once, however far the score is past the
    threshold. *)
Theorem update_difficulty_one_escalation (g : GameEngine.t) :
  difficulty_in_range g ->
  let g' := GameEngine.update_difficulty g in
  GameEngine.next_difficulty_score g <= GameEngine.next_difficulty_score g' /\
  (GameEngine.current_spawn_rate g' <= GameEngine.current_spawn_rate g)%Q /\
  (GameEngine.current_enemy_speed_min g <= GameEngine.current_enemy_speed_min g')%Q /\
  (GameEngine.current_enemy_speed_max g <= GameEngine.current_enemy_speed_max g')%Q /\
  difficulty_in_range g' /\
  (g' = g \/
   (GameEngine.next_difficulty_score g <= GameEngine.get_score g /\
    GameEngine.next_difficulty_score g'
    = GameEngine.next_difficulty_score g + Config.DIFFICULTY_INCREASE_INTERVAL /\
    GameEngine.current_spawn_rate g'
    = (GameEngine.current_spawn_rate g * Config.SPAWN_RATE_MULTIPLIER)%Q /\
    GameEngine.current_enemy_speed_min g'
    = (GameEngine.current_enemy_speed_min g * Config.ENEMY_SPEED_MULTIPLIER)%Q /\
    GameEngine.current_enemy_speed_max g'
    = (GameEngine.current_enemy_speed_max g * Config.ENEMY_SPEED_MULTIPLIER)%Q)).
Proof.
  intros (Hrate & Hmin & Hmax) g'. subst g'. unfold GameEngine.update_difficulty.
  destruct (Z.leb_spec (GameEngine.next_difficulty_score g)
              (ScoreService.get_current_score (GameEngine.score_service g))) as [Hle | Hgt].
  - cbn [GameEngine.set_difficulty GameEngine.next_difficulty_score
           GameEngine.current_spawn_rate GameEngine.current_enemy_speed_min
           GameEngine.current_enemy_speed_max].
    unfold difficulty_in_range.
    cbn [GameEngine.set_difficulty GameEngine.current_spawn_rate
           GameEngine.current_enemy_speed_min GameEngine.current_enemy_speed_max].
    unfold Config.DIFFICULTY_INCREASE_INTERVAL, Config.SPAWN_RATE_MULTIPLIER,
      Config.ENEMY_SPEED_MULTIPLIER.
    split; [lia |]. split; [lra |]. split; [lra |]. split; [lra |].
    split; [repeat split; lra |].
    right. repeat split. exact Hle.
  - split; [lia |]. split; [lra |]. split; [lra |]. split; [lra |].
    split; [repeat split; assumption |]. left. reflexivity.
Qed.

Lemma update_difficulty_one_escalation_sample :
  difficulty_in_range Sample.engine_250 /\
  GameEngine.get_score Sample.engine_250 = 250 /\
  GameEngine.next_difficulty_score Sample.engine_250 = 100 /\
  GameEngine.next_difficulty_score (GameEngine.update_difficulty Sample.engine_250) = 200 /\
  (GameEngine.current_spawn_rate (GameEngine.update_difficulty Sample.engine_250)
   <= GameEngine.current_spawn_rate Sample.engine_250)%Q.
Proof.
  assert (Hrange : difficulty_in_range Sample.engine_250)
    by (repeat split; discriminate).
  split; [exact Hrange |]. split; [reflexivity |]. split; [reflexivity |].
  split; [reflexivity |].
  pose proof (update_difficulty_one_escalation Sample.engine_250 Hrange) as Hall.
  cbv zeta in Hall. destruct Hall as (_ & Hrate & _). exact Hrate.
Defined.

(** ** Straight-line motion *)

Lemma Qtrunc_small_step (y : Z) (d : Q) :
  0 <= y -> (0 <= d)%Q -> (d < 1)%Q -> Py.Qtrunc (inject_Z y + d) = y.
Proof.
  intros Hy Hd0 Hd1. destruct d as [a b].
  unfold Qle in Hd0. unfold Qlt in Hd1. cbn in Hd0, Hd1.
  unfold Py.Qtrunc. cbn.
  rewrite Z.quot_div_nonneg by nia.
  symmetry. apply Z.div_unique with (r := a); lia.
Qed.

(** A sprite at or below the top edge whose step per frame is under one
    pixel does not move at all: the fraction is dropped every frame. *)
Lemma slow_projectile_stands_still (dt : Q) (p : Projectile.t) :
  0 <= Rect.y (Projectile.rect p) ->
  (0 <= Projectile.velocity_y p * dt * 60)%Q ->
  (Projectile.velocity_y p * dt * 60 < 1)%Q ->
  Rect.y (Projectile.rect (Projectile.update dt p)) = Rect.y (Projectile.rect p).
Proof.
  intros Hy H0 H1. unfold Projectile.update. cbn.
  apply Qtrunc_small_step; assumption.
Qed.

(** C8 at a concrete input.  The projectile the player fires from
    (400, 300) flies for four frames of 17 ms; each frame moves its
    rectangle by 9 pixels instead of 8.16, and its top ends at 258.  One
    integration over the 68 ms ends at 261. *)
Theorem projectile_motion_not_linear :
  Rect.y (Projectile.rect Sample.bullet) = 294 /\
  Rect.y (Projectile.rect (fly Sample.four_frames Sample.bullet)) = 258 /\
  Rect.y (Projectile.rect (fly [total Sample.four_frames] Sample.bullet)) = 261 /\
  (total Sample.four_frames == 68 # 1000)%Q.
Proof. vm_compute. repeat split. Qed.

Lemma slow_enemy_stands_still `{Transform} (dt : Q) (e : Enemy.t) :
  0 <= Rect.y (Enemy.rect e) ->
  (0 <= Enemy.speed e * dt * 60)%Q ->
  (Enemy.speed e * dt * 60 < 1)%Q ->
  Rect.centery (Enemy.rect (Enemy.update dt e)) = Rect.centery (Enemy.rect e).
Proof.
  intros Hy H0 H1. unfold Enemy.update.
  destruct (rotate_size (Enemy.size e) (Enemy.rotation e + Enemy.rotation_speed e))
    as [w' h'].
  unfold Rect.centery, Rect.add_y. cbn.
  rewrite Qtrunc_small_step by assumption. lia.
Qed.

(** ** The high-score file *)

Lemma load_high_score_missing (w : World.t) :
  World.file w = None -> ScoreService.load_high_score w = (Py.Ok (Py.JInt 0), w).
Proof.
  intros Hfile. unfold ScoreService.load_high_score, World.bind, World.path_exists.
  rewrite Hfile. reflexivity.
Qed.

Lemma load_high_score_present (c : World.content) (w : World.t) :
  World.file w = Some c ->
  ScoreService.load_high_score w
  = World.try_except
      (let! text := World.open_read in
       let! data := World.lift (World.json_load text) in
       World.lift (Py.get data "high_score" (Py.JInt 0)))
      (fun e =>
         let! _ := World.print "Warning: Could not load high score" in
         World.ret (Py.JInt 0)) w.
Proof.
  intros Hfile. unfold ScoreService.load_high_score at 1.
  unfold World.bind at 1. unfold World.path_exists. rewrite Hfile. reflexivity.
Qed.

(** A readable file holding a JSON object is taken at its word: the value
    under ["high_score"] is returned whatever its type, 0 if the key is
    absent. *)
Lemma load_high_score_object (l : list (string * Py.json)) (w : World.t) :
  World.file w = Some (World.Text (Py.JObj l)) -> World.readable w = true ->
  ScoreService.load_high_score w = (Py.Ok (Py.dict_get l "high_score" (Py.JInt 0)), w).
Proof.
  intros Hfile Hr. rewrite (load_high_score_present _ w Hfile).
  unfold World.try_except, World.bind, World.open_read, World.lift.
  rewrite Hfile, Hr. reflexivity.
Qed.

Lemma load_high_score_total (w : World.t) :
  exists v w', ScoreService.load_high_score w = (Py.Ok v, w').
Proof.
  destruct (World.file w) as [c |] eqn:Hfile.
  - rewrite (load_high_score_present c w Hfile).
    unfold World.try_except, World.bind, World.open_read, World.lift, World.print, World.ret.
    rewrite Hfile. destruct (World.readable w); [| eauto].
    destruct c as [j |]; cbn; [| eauto].
    destruct j; cbn; eauto.
  - rewrite (load_high_score_missing w Hfile). eauto.
Qed.

Lemma load_high_score_unparsable (w : World.t) :
  unparsable w -> fst (ScoreService.load_high_score w) = Py.Ok (Py.JInt 0).
Proof.
  unfold unparsable. intros Hc.
  destruct (World.file w) as [c |] eqn:Hfile; [| contradiction].
  rewrite (load_high_score_present c w Hfile).
  unfold World.try_except, World.bind, World.open_read, World.lift, World.print, World.ret.
  rewrite Hfile. destruct (World.readable w) eqn:Hr; [| reflexivity].
  destruct c as [j |]; cbn; [| reflexivity].
  destruct j; cbn; try reflexivity. discriminate.
Qed.

(** C9 at its failing inputs.  A save file that is a well-formed JSON
    object but holds something else than a score under ["high_score"] is
    corrupt, and [load_high_score] returns what it holds instead of 0: the
    string of [Sample.edited_file], the negative number of
    [Sample.negative_file].  Nothing is printed.  With the string as its
    high score the service raises at the first [add_points]. *)
Theorem load_high_score_returns_corrupt_value :
  corrupt Sample.edited_file /\
  ScoreService.load_high_score Sample.edited_file
  = (Py.Ok (Py.JStr "lots"), Sample.edited_file) /\
  ScoreService.add_points Config.ENEMY_POINTS (ScoreService.mk 0 (Py.JStr "lots"))
  = Py.Err (Py.TypeError "'>' not supported between instances") /\
  corrupt Sample.negative_file /\
  ScoreService.load_high_score Sample.negative_file
  = (Py.Ok (Py.JInt (-3)), Sample.negative_file).
Proof.
  split; [| split; [reflexivity | split; [reflexivity | split; [| reflexivity]]]].
  - right. eexists. split; [reflexivity |]. split; [reflexivity |]. cbn. tauto.
  - right. eexists. split; [reflexivity |]. split; [reflexivity |]. cbn. lia.
Qed.

(** The rest of the file protocol holds.  [load_high_score] always returns,
    and returns 0 when the file is missing and when nothing can be read
    from it (unreadable, not JSON, or JSON that is not an object).
    [save_high_score] always returns normally.  When the disk takes the
    write and the file can be read back, the load that follows a save
    returns the high score that was saved. *)
Theorem high_score_survives_save_and_load (s : ScoreService.t) (w : World.t) :
  (exists v w', ScoreService.load_high_score w = (Py.Ok v, w')) /\
  (World.file w = None -> fst (ScoreService.load_high_score w) = Py.Ok (Py.JInt 0)) /\
  (unparsable w -> fst (ScoreService.load_high_score w) = Py.Ok (Py.JInt 0)) /\
  (exists w', ScoreService.save_high_score s w = (Py.Ok tt, w')) /\
  (World.writable w = true -> World.disk_full w = false -> World.readable w = true ->
   fst (ScoreService.load_high_score (snd (ScoreService.save_high_score s w)))
   = Py.Ok (ScoreService.high_score s)).
Proof.
  split; [apply load_high_score_total |].
  split; [intros Hfile; rewrite (load_high_score_missing w Hfile); reflexivity |].
  split; [apply load_high_score_unparsable |].
  split; [apply save_high_score_total |].
  intros Hw Hd Hr. rewrite (save_high_score_ok s w Hw Hd). cbn [snd].
  erewrite load_high_score_present by reflexivity.
  unfold World.try_except, World.bind, World.open_read, World.lift.
  cbn. rewrite Hr. cbn. reflexivity.
Qed.

Lemma high_score_survives_save_and_load_sample :
  fst (ScoreService.load_high_score Sample.first_run) = Py.Ok (Py.JInt 0) /\
  fst (ScoreService.load_high_score
         (snd (ScoreService.save_high_score Sample.score_500 Sample.first_run)))
  = Py.Ok (Py.JInt 500).
Proof.
  pose proof (high_score_survives_save_and_load Sample.score_500 Sample.first_run)
    as (_ & Hmissing & _ & _ & Hround).
  split.
  - apply Hmissing. reflexivity.
  - apply Hround; reflexivity.
Defined.

(** ** The running maximum of the score service *)

Lemma add_points_running_max (points : Z) (s : ScoreService.t) (h : Z) :
  ScoreService.high_score s = Py.JInt h ->
  ScoreService.add_points points s
  = Py.Ok (ScoreService.mk (ScoreService.current_score s + points)
             (Py.JInt (Z.max h (ScoreService.current_score s + points)))).
Proof.
  intros Hh. unfold ScoreService.add_points, Py.int_gt. rewrite Hh. cbn [Py.num Py.bind].
  destruct (Py.Qlt_bool (inject_Z h) (inject_Z (ScoreService.current_score s + points)))
    eqn:E.
  - apply Qlt_bool_true in E. rewrite <- Zlt_Qlt in E.
    rewrite Z.max_r by lia. reflexivity.
  - apply Qlt_bool_false in E. rewrite <- Zle_Qle in E.
    rewrite Z.max_l by lia. reflexivity.
Qed.




(** ** Groups, [kill], [spritecollide] and [groupcollide] *)

Lemma set_groups_id (g : GameEngine.t) :
  GameEngine.set_groups (GameEngine.all_sprites g) (GameEngine.player_projectiles g)
    (GameEngine.enemies g) g = g.
Proof. destruct g. reflexivity. Qed.

Lemma filter_not_elem_of_nil (l : list ref) : filter (fun s => s ∉ []) l = l.
Proof.
  induction l as [| x l IH]; [reflexivity |].
  rewrite filter_cons_True by apply not_elem_of_nil. now rewrite IH.
Qed.

Lemma Group_remove_filter (r : ref) (rest l : list ref) :
  filter (fun s => s ∉ rest) (Group_remove r l) = filter (fun s => s ∉ r :: rest) l.
Proof.
  unfold Group_remove. rewrite list_filter_filter. apply list_filter_iff.
  intros x. rewrite not_elem_of_cons. tauto.
Qed.

Lemma kill_each_spec (l : list ref) :
  forall g : GameEngine.t,
    GameEngine.kill_each l g
    = GameEngine.set_groups
        (filter (fun s => s ∉ l) (GameEngine.all_sprites g))
        (filter (fun s => s ∉ l) (GameEngine.player_projectiles g))
        (filter (fun s => s ∉ l) (GameEngine.enemies g)) g.
Proof.
  induction l as [| r rest IH]; intros g.
  - cbn [GameEngine.kill_each]. rewrite !filter_not_elem_of_nil. symmetry. apply set_groups_id.
  - cbn [GameEngine.kill_each]. rewrite IH. unfold GameEngine.kill.
    cbn [GameEngine.set_groups GameEngine.all_sprites GameEngine.player_projectiles
           GameEngine.enemies].
    rewrite !Group_remove_filter. reflexivity.
Qed.

Lemma spritecollide_loop_kill (r : Rect.t) (snapshot : list ref) :
  forall g : GameEngine.t,
    GameEngine.spritecollide_loop r true snapshot g
    = (filter (fun s => GameEngine.collides g r s = true) snapshot,
       GameEngine.kill_each (filter (fun s => GameEngine.collides g r s = true) snapshot) g).
Proof.
  induction snapshot as [| s rest IH]; intros g; [reflexivity |].
  cbn [GameEngine.spritecollide_loop].
  destruct (GameEngine.collides g r s) eqn:E.
  - rewrite IH. rewrite (filter_cons_True _ s rest E). reflexivity.
  - rewrite IH. rewrite filter_cons_False by congruence. reflexivity.
Qed.

Lemma spritecollide_loop_keep (r : Rect.t) (snapshot : list ref) (g : GameEngine.t) :
  GameEngine.spritecollide_loop r false snapshot g
  = (filter (fun s => GameEngine.collides g r s = true) snapshot, g).
Proof.
  induction snapshot as [| s rest IH]; [reflexivity |].
  cbn [GameEngine.spritecollide_loop].
  destruct (GameEngine.collides g r s) eqn:E.
  - rewrite IH. rewrite (filter_cons_True _ s rest E). reflexivity.
  - rewrite IH. rewrite filter_cons_False by congruence. reflexivity.
Qed.

Lemma overlap_kill_each (l : list ref) (g : GameEngine.t) (a b : ref) :
  overlap (GameEngine.kill_each l g) a b = overlap g a b.
Proof. rewrite kill_each_spec. reflexivity. Qed.

Lemma overlap_true_inv (g : GameEngine.t) (a b : ref) :
  overlap g a b = true ->
  exists ra, GameEngine.rect_of g a = Some ra /\ GameEngine.collides g ra b = true.
Proof.
  unfold overlap. destruct (GameEngine.rect_of g a) as [ra |]; [eauto | discriminate].
Qed.

Lemma elem_of_Group_remove (r s : ref) (l : list ref) :
  s ∈ Group_remove r l <-> s <> r /\ s ∈ l.
Proof. exact (list_elem_of_filter (fun x => x <> r) l s). Qed.

Lemma Group_remove_absent (r : ref) (l : list ref) : r ∉ l -> Group_remove r l = l.
Proof.
  intros Hnin. unfold Group_remove. induction l as [| x l IH]; [reflexivity |].
  apply not_elem_of_cons in Hnin as [Hne Hnin].
  rewrite filter_cons_True by congruence. now rewrite IH.
Qed.

Lemma filter_out_filtered (P : ref -> Prop) `{!forall x, Decision (P x)} (l0 l : list ref) :
  (forall x, x ∈ l -> x ∈ l0) ->
  filter (fun x => x ∉ filter P l0) l = filter (fun x => ~ P x) l.
Proof.
  induction l as [| x l IH]; intros Hsub; [reflexivity |].
  assert (Hx : x ∈ l0) by (apply Hsub; left).
  assert (Hl : forall y, y ∈ l -> y ∈ l0) by (intros y Hy; apply Hsub; now right).
  destruct (decide (P x)) as [HP | HnP].
  - rewrite !filter_cons_False; [apply IH, Hl | tauto |].
    intros Hnin. apply Hnin. apply list_elem_of_filter. auto.
  - rewrite !filter_cons_True; [now rewrite IH | assumption |].
    intros Hin. apply list_elem_of_filter in Hin. tauto.
Qed.

Lemma length_filter_split (P : ref -> Prop) `{!forall x, Decision (P x)} (l : list ref) :
  (length (filter P l) + length (filter (fun x => ~ P x) l) = length l)%nat.
Proof.
  rewrite <- length_app. apply Permutation_length, filter_app_complement.
Qed.

(** One turn of the outer loop of [groupcollide(projectiles, enemies, True,
    True)], with the inner [spritecollide] in closed form. *)
Lemma groupcollide_loop_cons (a : ref) (rest : list ref) (g : GameEngine.t) :
  GameEngine.groupcollide_loop GameEngine.enemies true true (a :: rest) g
  = match GameEngine.rect_of g a with
    | None => GameEngine.groupcollide_loop GameEngine.enemies true true rest g
    | Some ra =>
      match filter (fun s => GameEngine.collides g ra s = true) (GameEngine.enemies g) with
      | [] => GameEngine.groupcollide_loop GameEngine.enemies true true rest g
      | e :: c =>
        (let '(crashed, g') :=
           GameEngine.groupcollide_loop GameEngine.enemies true true rest
             (GameEngine.kill a (GameEngine.kill_each (e :: c) g)) in
         ((a, e :: c) :: crashed, g'))
      end
    end.
Proof.
  cbn [GameEngine.groupcollide_loop].
  destruct (GameEngine.rect_of g a) as [ra |]; [| reflexivity].
  unfold GameEngine.spritecollide. rewrite spritecollide_loop_kill.
  destruct (filter _ (GameEngine.enemies g)); reflexivity.
Qed.

Lemma enemies_after_hit (a : ref) (c : list ref) (g : GameEngine.t) (x : ref) :
  x ∈ GameEngine.enemies (GameEngine.kill a (GameEngine.kill_each c g))
  <-> x <> a /\ (x ∉ c) /\ x ∈ GameEngine.enemies g.
Proof.
  rewrite kill_each_spec. unfold GameEngine.kill.
  cbn [GameEngine.enemies GameEngine.set_groups].
  rewrite elem_of_Group_remove, list_elem_of_filter. tauto.
Qed.

Lemma groupcollide_loop_groups (ps : list ref) :
  forall (g g' : GameEngine.t) (hits : list (ref * list ref)),
    GameEngine.groupcollide_loop GameEngine.enemies true true ps g = (hits, g') ->
    g' = GameEngine.set_groups
           (filter (fun s => s ∉ killed hits) (GameEngine.all_sprites g))
           (filter (fun s => s ∉ killed hits) (GameEngine.player_projectiles g))
           (filter (fun s => s ∉ killed hits) (GameEngine.enemies g)) g.
Proof.
  induction ps as [| a rest IH]; intros g g' hits Hrun.
  - cbn in Hrun. injection Hrun as <- <-. cbn [killed].
    rewrite !filter_not_elem_of_nil. symmetry. apply set_groups_id.
  - rewrite groupcollide_loop_cons in Hrun.
    destruct (GameEngine.rect_of g a) as [ra |]; [| apply IH, Hrun].
    destruct (filter _ (GameEngine.enemies g)) as [| e c] eqn:Hc; [apply IH, Hrun |].
    destruct (GameEngine.groupcollide_loop _ _ _ rest _) as [crashed g2] eqn:Hrest.
    injection Hrun as <- <-.
    apply IH in Hrest. rewrite Hrest. rewrite kill_each_spec. unfold GameEngine.kill.
    cbn [GameEngine.set_groups GameEngine.all_sprites GameEngine.player_projectiles
           GameEngine.enemies killed].
    assert (Hfilter : forall l : list ref,
              filter (fun s => s ∉ killed crashed)
                (Group_remove a (filter (fun s => s ∉ e :: c) l))
              = filter (fun s => s ∉ a :: (e :: c) ++ killed crashed) l).
    { intros l. rewrite Group_remove_filter, list_filter_filter.
      apply list_filter_iff. intros x.
      rewrite !not_elem_of_cons, not_elem_of_app, !not_elem_of_cons. tauto. }
    rewrite !Hfilter. reflexivity.
Qed.

Lemma groupcollide_loop_sound (ps : list ref) :
  forall (g g' : GameEngine.t) (hits : list (ref * list ref)),
    GameEngine.groupcollide_loop GameEngine.enemies true true ps g = (hits, g') ->
    forall a c, (a, c) ∈ hits ->
      a ∈ ps /\ c <> [] /\
      forall e, e ∈ c -> e ∈ GameEngine.enemies g /\ overlap g a e = true.
Proof.
  induction ps as [| a0 rest IH]; intros g g' hits Hrun a c Hin.
  - cbn in Hrun. injection Hrun as <- <-. apply elem_of_nil in Hin. contradiction.
  - rewrite groupcollide_loop_cons in Hrun.
    destruct (GameEngine.rect_of g a0) as [ra |] eqn:Hrect;
      [| destruct (IH _ _ _ Hrun a c Hin) as [? ?]; split; [now right | assumption]].
    destruct (filter _ (GameEngine.enemies g)) as [| e0 c0] eqn:Hc;
      [destruct (IH _ _ _ Hrun a c Hin) as [? ?]; split; [now right | assumption] |].
    destruct (GameEngine.groupcollide_loop _ _ _ rest _) as [crashed g2] eqn:Hrest.
    injection Hrun as <- <-.
    apply elem_of_cons in Hin as [Heq | Hin].
    + injection Heq as -> ->. split; [left |]. split; [discriminate |].
      intros e He. rewrite <- Hc in He. apply list_elem_of_filter in He as [Hhit He].
      split; [exact He |]. unfold overlap. rewrite Hrect. exact Hhit.
    + destruct (IH _ _ _ Hrest a c Hin) as (Ha & Hne & Hc'). split; [now right |].
      split; [exact Hne |]. intros e He. destruct (Hc' e He) as [Hen Hov].
      apply enemies_after_hit in Hen as (_ & _ & Hen). split; [exact Hen |].
      rewrite <- Hov. unfold overlap at 2, GameEngine.kill.
      rewrite kill_each_spec. reflexivity.
Qed.

Lemma elem_of_killed (hits : list (ref * list ref)) (x : ref) :
  x ∈ killed hits <-> exists a c, (a, c) ∈ hits /\ (x = a \/ x ∈ c).
Proof.
  induction hits as [| [a c] rest IH]; cbn [killed].
  - split; [intros Hin; apply elem_of_nil in Hin; contradiction |].
    intros (a & c & Hin & _). apply elem_of_nil in Hin. contradiction.
  - rewrite elem_of_cons, elem_of_app, IH. split.
    + intros [-> | [Hc | (a' & c' & Hin & Hx)]].
      * exists a, c. split; [left | now left].
      * exists a, c. split; [left | now right].
      * exists a', c'. split; [now right | exact Hx].
    + intros (a' & c' & Hin & Hx). apply elem_of_cons in Hin as [Heq | Hin].
      * injection Heq as -> ->. tauto.
      * right. right. eauto.
Qed.

Lemma groupcollide_loop_complete (ps : list ref) :
  forall (g g' : GameEngine.t) (hits : list (ref * list ref)),
    GameEngine.groupcollide_loop GameEngine.enemies true true ps g = (hits, g') ->
    forall p e, p ∈ ps -> e ∈ GameEngine.enemies g -> overlap g p e = true ->
      e ∈ killed hits.
Proof.
  induction ps as [| a rest IH]; intros g g' hits Hrun p e Hp He Hov.
  - apply elem_of_nil in Hp. contradiction.
  - rewrite groupcollide_loop_cons in Hrun.
    apply elem_of_cons in Hp as [-> | Hp].
    + destruct (overlap_true_inv g a e Hov) as (ra & Hrect & Hhit). rewrite Hrect in Hrun.
      assert (Hin : e ∈ filter (fun s => GameEngine.collides g ra s = true)
                        (GameEngine.enemies g))
        by (apply list_elem_of_filter; auto).
      destruct (filter _ (GameEngine.enemies g)) as [| e0 c0];
        [apply elem_of_nil in Hin; contradiction |].
      destruct (GameEngine.groupcollide_loop _ _ _ rest _) as [crashed g2].
      injection Hrun as <- <-. cbn [killed]. right. apply elem_of_app. now left.
    + destruct (GameEngine.rect_of g a) as [ra |]; [| exact (IH _ _ _ Hrun p e Hp He Hov)].
      destruct (filter _ (GameEngine.enemies g)) as [| e0 c0] eqn:Hc;
        [exact (IH _ _ _ Hrun p e Hp He Hov) |].
      destruct (GameEngine.groupcollide_loop _ _ _ rest _) as [crashed g2] eqn:Hrest.
      injection Hrun as <- <-. cbn [killed].
      destruct (decide (e = a)) as [-> | Hne]; [left |].
      destruct (decide (e ∈ e0 :: c0)) as [Hin | Hnin];
        [right; apply elem_of_app; now left |].
      right. apply elem_of_app. right.
      apply (IH _ _ _ Hrest p e Hp).
      * apply enemies_after_hit. auto.
      * unfold overlap, GameEngine.kill. rewrite kill_each_spec. exact Hov.
Qed.

Lemma groupcollide_loop_first (l1 : list ref) :
  forall (p : ref) (l2 : list ref) (g g' : GameEngine.t) (hits : list (ref * list ref)) (e : ref),
    GameEngine.groupcollide_loop GameEngine.enemies true true (l1 ++ p :: l2) g = (hits, g') ->
    e ∈ GameEngine.enemies g -> overlap g p e = true ->
    (forall q, q ∈ l1 -> overlap g q e = false /\ q <> e) ->
    p ∈ killed hits.
Proof.
  induction l1 as [| q rest IH]; intros p l2 g g' hits e Hrun He Hov Hfirst.
  - cbn [app] in Hrun. rewrite groupcollide_loop_cons in Hrun.
    destruct (overlap_true_inv g p e Hov) as (rp & Hrect & Hhit). rewrite Hrect in Hrun.
    assert (Hin : e ∈ filter (fun s => GameEngine.collides g rp s = true)
                      (GameEngine.enemies g))
      by (apply list_elem_of_filter; auto).
    destruct (filter _ (GameEngine.enemies g)) as [| e0 c0];
      [apply elem_of_nil in Hin; contradiction |].
    destruct (GameEngine.groupcollide_loop _ _ _ l2 _) as [crashed g2].
    injection Hrun as <- <-. cbn [killed]. left.
  - assert (Hrest : forall q0, q0 ∈ rest -> overlap g q0 e = false /\ q0 <> e)
      by (intros q0 Hq0; apply Hfirst; now right).
    destruct (Hfirst q) as [Hq Hqe]; [left |].
    cbn [app] in Hrun. rewrite groupcollide_loop_cons in Hrun.
    destruct (GameEngine.rect_of g q) as [rq |] eqn:Hrect;
      [| exact (IH _ _ _ _ _ e Hrun He Hov Hrest)].
    destruct (filter _ (GameEngine.enemies g)) as [| e0 c0] eqn:Hc;
      [exact (IH _ _ _ _ _ e Hrun He Hov Hrest) |].
    destruct (GameEngine.groupcollide_loop _ _ _ (rest ++ p :: l2) _) as [crashed g2] eqn:Hloop.
    injection Hrun as <- <-. cbn [killed]. right. apply elem_of_app. right.
    apply (IH _ _ _ _ _ e Hloop).
    + apply enemies_after_hit. split; [congruence |]. split; [| exact He].
      rewrite <- Hc. intros Hin. apply list_elem_of_filter in Hin as [Hhit _].
      unfold overlap in Hq. rewrite Hrect in Hq. congruence.
    + unfold overlap, GameEngine.kill. rewrite kill_each_spec. exact Hov.
    + intros q0 Hq0. destruct (Hrest q0 Hq0) as [Hov0 Hne0]. split; [| exact Hne0].
      unfold overlap, GameEngine.kill. rewrite kill_each_spec. exact Hov0.
Qed.

Lemma before_split (group : list ref) (p : ref) :
  p ∈ group -> exists l2, group = before group p ++ p :: l2.
Proof.
  induction group as [| q rest IH]; intros Hin.
  - apply elem_of_nil in Hin. contradiction.
  - cbn [before]. destruct (decide (q = p)) as [-> | Hne].
    + exists rest. reflexivity.
    + apply elem_of_cons in Hin as [-> | Hin]; [congruence |].
      destruct (IH Hin) as [l2 Hl2]. exists l2. cbn [app]. congruence.
Qed.

Lemma before_prefix (l1 : list ref) (p : ref) (l2 : list ref) (q : ref) :
  q ∈ before (l1 ++ p :: l2) p -> q ∈ l1.
Proof.
  induction l1 as [| x rest IH]; cbn [app before].
  - destruct (decide (p = p)) as [_ | Hne]; [| congruence].
    intros Hin. apply elem_of_nil in Hin. contradiction.
  - destruct (decide (x = p)) as [_ | Hne].
    + intros Hin. apply elem_of_nil in Hin. contradiction.
    + intros Hin. apply elem_of_cons in Hin as [-> | Hin]; [left | right; auto].
Qed.

Lemma overlapping_or_free (g : GameEngine.t) (l : list ref) (e : ref) :
  (exists q, q ∈ l /\ overlap g q e = true) \/ (forall q, q ∈ l -> overlap g q e = false).
Proof.
  induction l as [| x rest IH].
  - right. intros q Hq. apply elem_of_nil in Hq. contradiction.
  - destruct (overlap g x e) eqn:Hx.
    + left. exists x. split; [left | exact Hx].
    + destruct IH as [(q & Hq & Hov) | Hfree].
      * left. exists q. split; [now right | exact Hov].
      * right. intros q Hq. apply elem_of_cons in Hq as [-> | Hq]; auto.
Qed.

(** A key of the result found its enemies still in the group: no
    projectile walked before it overlapped them. *)
Lemma groupcollide_loop_keys (ps : list ref) :
  forall (g g' : GameEngine.t) (hits : list (ref * list ref)),
    GameEngine.groupcollide_loop GameEngine.enemies true true ps g = (hits, g') ->
    forall a c, (a, c) ∈ hits ->
      exists l1 l2, ps = l1 ++ a :: l2 /\
        forall e q, e ∈ c -> q ∈ l1 -> overlap g q e = false.
Proof.
  induction ps as [| a0 rest IH]; intros g g' hits Hrun a c Hin.
  - cbn in Hrun. injection Hrun as <- <-. apply elem_of_nil in Hin. contradiction.
  - rewrite groupcollide_loop_cons in Hrun.
    destruct (GameEngine.rect_of g a0) as [ra |] eqn:Hrect.
    2: { destruct (IH _ _ _ Hrun a c Hin) as (l1 & l2 & Hsplit & Hfree).
         exists (a0 :: l1), l2. split; [cbn [app]; congruence |].
         intros e q He Hq. apply elem_of_cons in Hq as [-> | Hq]; [| eauto].
         unfold overlap. rewrite Hrect. reflexivity. }
    destruct (filter _ (GameEngine.enemies g)) as [| e0 c0] eqn:Hc.
    { pose proof (groupcollide_loop_sound _ _ _ _ Hrun a c Hin) as (_ & _ & Hs).
      destruct (IH _ _ _ Hrun a c Hin) as (l1 & l2 & Hsplit & Hfree).
      exists (a0 :: l1), l2. split; [cbn [app]; congruence |].
      intros e q He Hq. apply elem_of_cons in Hq as [-> | Hq]; [| eauto].
      destruct (Hs e He) as [Hen _].
      unfold overlap. rewrite Hrect.
      destruct (GameEngine.collides g ra e) eqn:Hhit; [| reflexivity].
      assert (Hmem : e ∈ filter (fun s => GameEngine.collides g ra s = true)
                          (GameEngine.enemies g))
        by (apply list_elem_of_filter; auto).
      rewrite Hc in Hmem. apply elem_of_nil in Hmem. contradiction. }
    destruct (GameEngine.groupcollide_loop _ _ _ rest _) as [crashed g2] eqn:Hrest.
    injection Hrun as <- <-.
    apply elem_of_cons in Hin as [Heq | Hin].
    + injection Heq as -> ->. exists [], rest. split; [reflexivity |].
      intros e q _ Hq. apply elem_of_nil in Hq. contradiction.
    + pose proof (groupcollide_loop_sound _ _ _ _ Hrest a c Hin) as (_ & _ & Hs).
      destruct (IH _ _ _ Hrest a c Hin) as (l1 & l2 & Hsplit & Hfree).
      exists (a0 :: l1), l2. split; [cbn [app]; congruence |].
      intros e q He Hq. apply elem_of_cons in Hq as [-> | Hq].
      * destruct (Hs e He) as [Hen _]. apply enemies_after_hit in Hen as (_ & Hnin & Hen).
        unfold overlap. rewrite Hrect.
        destruct (GameEngine.collides g ra e) eqn:Hhit; [| reflexivity].
        exfalso. apply Hnin. rewrite <- Hc. apply list_elem_of_filter. auto.
      * rewrite <- (Hfree e q He Hq). unfold overlap at 2, GameEngine.kill.
        rewrite kill_each_spec. reflexivity.
Qed.

Lemma groupcollide_loop_count (ps : list ref) :
  forall (g g' : GameEngine.t) (hits : list (ref * list ref)),
    GameEngine.groupcollide_loop GameEngine.enemies true true ps g = (hits, g') ->
    (forall p, p ∈ ps -> p ∉ GameEngine.enemies g) ->
    (hits_total hits + length (GameEngine.enemies g') = length (GameEngine.enemies g))%nat.
Proof.
  induction ps as [| a rest IH]; intros g g' hits Hrun Hdisj.
  - cbn in Hrun. injection Hrun as <- <-. reflexivity.
  - assert (Hrest : forall p, p ∈ rest -> p ∉ GameEngine.enemies g)
      by (intros p Hp; apply Hdisj; now right).
    rewrite groupcollide_loop_cons in Hrun.
    destruct (GameEngine.rect_of g a) as [ra |]; [| exact (IH _ _ _ Hrun Hrest)].
    destruct (filter _ (GameEngine.enemies g)) as [| e0 c0] eqn:Hc;
      [exact (IH _ _ _ Hrun Hrest) |].
    destruct (GameEngine.groupcollide_loop _ _ _ rest _) as [crashed g2] eqn:Hloop.
    injection Hrun as <- <-. cbn [hits_total].
    assert (Hen : GameEngine.enemies (GameEngine.kill a (GameEngine.kill_each (e0 :: c0) g))
                  = filter (fun s => ~ GameEngine.collides g ra s = true) (GameEngine.enemies g)).
    { rewrite kill_each_spec. unfold GameEngine.kill.
      cbn [GameEngine.enemies GameEngine.set_groups].
      rewrite Group_remove_absent.
      - rewrite <- Hc. apply filter_out_filtered. auto.
      - intros Hin. apply list_elem_of_filter in Hin as [_ Hin].
        apply (Hdisj a); [left | exact Hin]. }
    apply IH in Hloop.
    + rewrite Hen in Hloop.
      pose proof (length_filter_split (fun s => GameEngine.collides g ra s = true)
                    (GameEngine.enemies g)) as Hsplit.
      rewrite Hc in Hsplit. lia.
    + intros p Hp Hin. apply enemies_after_hit in Hin as (_ & _ & Hin).
      exact (Hrest p Hp Hin).
Qed.

(** ** Scoring the hits *)

Lemma add_points_numeric (points : Z) (s : ScoreService.t) :
  is_Some (Py.num (ScoreService.high_score s)) ->
  exists s',
    ScoreService.add_points points s = Py.Ok s' /\
    ScoreService.current_score s' = ScoreService.current_score s + points /\
    is_Some (Py.num (ScoreService.high_score s')).
Proof.
  intros [q Hq]. unfold ScoreService.add_points, Py.int_gt. rewrite Hq. cbn [Py.bind].
  destruct (Py.Qlt_bool q _); eexists; (split; [reflexivity |]); cbn; eauto.
Qed.

Lemma award_enemies_total (hit_enemies : list ref) :
  forall s : ScoreService.t,
    is_Some (Py.num (ScoreService.high_score s)) ->
    exists s',
      GameEngine.award_enemies hit_enemies s = Py.Ok s' /\
      ScoreService.current_score s'
      = ScoreService.current_score s + Config.ENEMY_POINTS * Z.of_nat (length hit_enemies) /\
      is_Some (Py.num (ScoreService.high_score s')).
Proof.
  induction hit_enemies as [| e rest IH]; intros s Hnum.
  - exists s. cbn. repeat split; [lia | exact Hnum].
  - destruct (add_points_numeric Config.ENEMY_POINTS s Hnum) as (s1 & Hadd & Hcur & Hnum1).
    destruct (IH s1 Hnum1) as (s' & Hrun & Hcur' & Hnum').
    exists s'. cbn [GameEngine.award_enemies]. rewrite Hadd. cbn [Py.bind].
    split; [exact Hrun |]. split; [| exact Hnum'].
    rewrite Hcur', Hcur. cbn [length]. lia.
Qed.

Lemma award_total (hits : list (ref * list ref)) :
  forall s : ScoreService.t,
    is_Some (Py.num (ScoreService.high_score s)) ->
    exists s',
      GameEngine.award hits s = Py.Ok s' /\
      ScoreService.current_score s'
      = ScoreService.current_score s + Config.ENEMY_POINTS * Z.of_nat (hits_total hits) /\
      is_Some (Py.num (ScoreService.high_score s')).
Proof.
  induction hits as [| [a c] rest IH]; intros s Hnum.
  - exists s. cbn. repeat split; [lia | exact Hnum].
  - destruct (award_enemies_total c s Hnum) as (s1 & Hc & Hcur & Hnum1).
    destruct (IH s1 Hnum1) as (s' & Hrun & Hcur' & Hnum').
    exists s'. cbn [GameEngine.award]. rewrite Hc. cbn [Py.bind].
    split; [exact Hrun |]. split; [| exact Hnum'].
    rewrite Hcur', Hcur. cbn [hits_total]. lia.
Qed.

(** ** Projectiles against enemies *)

(** C3, as the code has it.  On an engine in which no sprite is both a
    projectile and an enemy and whose high score is a number, the first
    part of [check_collisions] returns normally and
    - an enemy stays exactly when no projectile overlapped it; an enemy that
      left also left [all_sprites];
    - no projectile is added; a projectile that overlapped no enemy stays;
    - an enemy is taken by the first projectile that reaches it, and a
      later projectile is judged on the enemies that are still there: a
      projectile stays exactly when every enemy it overlapped was
      overlapped by a projectile before it in the group, and leaves (also
      from [all_sprites]) when it overlapped an enemy that no projectile
      before it overlapped;
    - a sprite that is neither projectile nor enemy stays in [all_sprites];
    - the score grows by [ENEMY_POINTS] for every enemy that left. *)
Theorem projectile_hits_resolved (g : GameEngine.t) :
  (forall r, r ∈ GameEngine.player_projectiles g -> r ∉ GameEngine.enemies g) ->
  is_Some (Py.num (ScoreService.high_score (GameEngine.score_service g))) ->
  exists g',
    GameEngine.check_collisions_projectiles g = Py.Ok g' /\
    (forall e, e ∈ GameEngine.enemies g' <->
       e ∈ GameEngine.enemies g /\
       forall p, p ∈ GameEngine.player_projectiles g -> overlap g p e = false) /\
    (forall e, e ∈ GameEngine.enemies g -> e ∉ GameEngine.enemies g' ->
       e ∉ GameEngine.all_sprites g') /\
    (forall p, p ∈ GameEngine.player_projectiles g' -> p ∈ GameEngine.player_projectiles g) /\
    (forall p, p ∈ GameEngine.player_projectiles g ->
       (forall e, e ∈ GameEngine.enemies g -> overlap g p e = false) ->
       p ∈ GameEngine.player_projectiles g') /\
    (forall l1 p l2 e,
       GameEngine.player_projectiles g = l1 ++ p :: l2 ->
       e ∈ GameEngine.enemies g -> overlap g p e = true ->
       (forall q, q ∈ l1 -> overlap g q e = false) ->
       (p ∉ GameEngine.player_projectiles g') /\ (p ∉ GameEngine.all_sprites g')) /\
    (forall p, p ∈ GameEngine.player_projectiles g' <->
       p ∈ GameEngine.player_projectiles g /\
       forall e, e ∈ GameEngine.enemies g -> overlap g p e = true ->
         exists q, q ∈ before (GameEngine.player_projectiles g) p /\ overlap g q e = true) /\
    (forall p, p ∈ GameEngine.player_projectiles g ->
       p ∉ GameEngine.player_projectiles g' -> p ∉ GameEngine.all_sprites g') /\
    (forall s, s ∈ GameEngine.all_sprites g ->
       s ∉ GameEngine.player_projectiles g -> s ∉ GameEngine.enemies g ->
       s ∈ GameEngine.all_sprites g') /\
    GameEngine.get_score g'
    = GameEngine.get_score g
      + Config.ENEMY_POINTS
        * (Z.of_nat (length (GameEngine.enemies g)) - Z.of_nat (length (GameEngine.enemies g'))).
Proof.
  intros Hdisj Hnum.
  unfold GameEngine.check_collisions_projectiles, GameEngine.check_group_collision,
    GameEngine.groupcollide.
  destruct (GameEngine.groupcollide_loop GameEngine.enemies true true
              (GameEngine.player_projectiles g) g) as [hits g1] eqn:Hrun.
  pose proof (groupcollide_loop_groups _ _ _ _ Hrun) as Hg1.
  pose proof (groupcollide_loop_sound _ _ _ _ Hrun) as Hsound.
  pose proof (groupcollide_loop_keys _ _ _ _ Hrun) as Hkeys.
  pose proof (groupcollide_loop_complete _ _ _ _ Hrun) as Hcomplete.
  pose proof (groupcollide_loop_count _ _ _ _ Hrun Hdisj) as Hcount.
  assert (Hscore : GameEngine.score_service g1 = GameEngine.score_service g)
    by (rewrite Hg1; reflexivity).
  assert (Hall : GameEngine.all_sprites g1
                 = filter (fun s => s ∉ killed hits) (GameEngine.all_sprites g))
    by (rewrite Hg1; reflexivity).
  assert (Hpr : GameEngine.player_projectiles g1
                = filter (fun s => s ∉ killed hits) (GameEngine.player_projectiles g))
    by (rewrite Hg1; reflexivity).
  assert (Hen : GameEngine.enemies g1
                = filter (fun s => s ∉ killed hits) (GameEngine.enemies g))
    by (rewrite Hg1; reflexivity).
  rewrite Hscore.
  destruct (award_total hits (GameEngine.score_service g) Hnum) as (s' & Haward & Hcur & _).
  rewrite Haward. cbn [Py.bind]. eexists. split; [reflexivity |].
  cbn [GameEngine.set_score_service GameEngine.enemies GameEngine.all_sprites
         GameEngine.player_projectiles].
  assert (Hkept : forall x, x ∈ GameEngine.enemies g ->
            (forall p, p ∈ GameEngine.player_projectiles g -> overlap g p x = false) ->
            x ∉ killed hits).
  { intros x Hx Hfree Hk. apply elem_of_killed in Hk as (a & c & Hin & Hcase).
    destruct (Hsound a c Hin) as (Ha & _ & Hc).
    destruct Hcase as [-> | Hxc].
    - exact (Hdisj a Ha Hx).
    - destruct (Hc x Hxc) as [_ Hov]. rewrite (Hfree a Ha) in Hov. discriminate. }
  assert (Hfirst : forall l1 p l2 e,
            GameEngine.player_projectiles g = l1 ++ p :: l2 ->
            e ∈ GameEngine.enemies g -> overlap g p e = true ->
            (forall q, q ∈ l1 -> overlap g q e = false) ->
            p ∈ killed hits).
  { intros l1 p l2 e Hsplit He Hov Hfree.
    rewrite Hsplit in Hrun. apply (groupcollide_loop_first _ _ _ _ _ _ e Hrun He Hov).
    intros q Hq. split; [exact (Hfree q Hq) |].
    intros ->. apply (Hdisj e); [| exact He].
    rewrite Hsplit. apply elem_of_app. now left. }
  split; [| split; [| split; [| split; [| split; [| split; [| split; [| split]]]]]]].
  - intros e. rewrite Hen, list_elem_of_filter. split.
    + intros [Hnk He]. split; [exact He |]. intros p Hp.
      destruct (overlap g p e) eqn:Hov; [| reflexivity].
      exfalso. apply Hnk. exact (Hcomplete p e Hp He Hov).
    + intros [He Hfree]. split; [apply Hkept; assumption | exact He].
  - intros e He Hgone. rewrite Hall, list_elem_of_filter. intros [Hnk _].
    apply Hgone. rewrite Hen. apply list_elem_of_filter. auto.
  - intros p. rewrite Hpr, list_elem_of_filter. tauto.
  - intros p Hp Hfree. rewrite Hpr. apply list_elem_of_filter. split; [| exact Hp].
    intros Hk. apply elem_of_killed in Hk as (a & c & Hin & Hcase).
    destruct (Hsound a c Hin) as (Ha & Hne & Hc).
    destruct Hcase as [-> | Hpc].
    + destruct c as [| e c]; [congruence |].
      destruct (Hc e) as [He Hov]; [left |]. rewrite (Hfree e He) in Hov. discriminate.
    + destruct (Hc p Hpc) as [Hpe _]. exact (Hdisj p Hp Hpe).
  - intros l1 p l2 e Hsplit He Hov Hfree.
    pose proof (Hfirst l1 p l2 e Hsplit He Hov Hfree) as Hk.
    rewrite Hpr, Hall, !list_elem_of_filter. tauto.
  - intros p. rewrite Hpr, list_elem_of_filter. split.
    + intros [Hnk Hp]. split; [exact Hp |]. intros e He Hov.
      destruct (overlapping_or_free g (before (GameEngine.player_projectiles g) p) e)
        as [Hsome | Hfree]; [exact Hsome |].
      exfalso. apply Hnk. destruct (before_split _ p Hp) as [l2 Hsplit].
      exact (Hfirst _ p l2 e Hsplit He Hov Hfree).
    + intros [Hp Hearlier]. split; [| exact Hp].
      intros Hk. apply elem_of_killed in Hk as (a & c & Hin & Hcase).
      destruct (Hsound a c Hin) as (Ha & Hne & Hc).
      destruct Hcase as [-> | Hpc]; [| destruct (Hc p Hpc) as [Hpe _]; exact (Hdisj p Hp Hpe)].
      destruct (Hkeys a c Hin) as (l1 & l2 & Hsplit & Hfree).
      destruct c as [| e c]; [congruence |].
      destruct (Hc e) as [He Hov]; [left |].
      destruct (Hearlier e He Hov) as (q & Hq & Hqe).
      rewrite Hsplit in Hq. apply before_prefix in Hq.
      rewrite (Hfree e q) in Hqe; [discriminate | left | exact Hq].
  - intros p Hp Hgone. rewrite Hall, list_elem_of_filter. intros [Hnk _].
    apply Hgone. rewrite Hpr. apply list_elem_of_filter. auto.
  - intros s Hs Hnp Hne. rewrite Hall. apply list_elem_of_filter. split; [| exact Hs].
    intros Hk. apply elem_of_killed in Hk as (a & c & Hin & Hcase).
    destruct (Hsound a c Hin) as (Ha & _ & Hc).
    destruct Hcase as [-> | Hsc]; [exact (Hnp Ha) |].
    destruct (Hc s Hsc) as [Hse _]. exact (Hne Hse).
  - unfold GameEngine.get_score, ScoreService.get_current_score.
    cbn [GameEngine.set_score_service GameEngine.score_service]. rewrite Hcur. lia.
Qed.

(** Two projectiles over the same enemy: the first one leaves with it, the
    second one stays. *)
Lemma projectile_hits_resolved_sample :
  (forall r, r ∈ GameEngine.player_projectiles Sample.engine_two_bullets ->
             r ∉ GameEngine.enemies Sample.engine_two_bullets) /\
  is_Some (Py.num (ScoreService.high_score
                     (GameEngine.score_service Sample.engine_two_bullets))) /\
  exists g',
    GameEngine.check_collisions_projectiles Sample.engine_two_bullets = Py.Ok g' /\
    (RObj 0 ∉ GameEngine.player_projectiles g') /\
    RObj 1 ∈ GameEngine.player_projectiles g' /\
    GameEngine.get_score g'
    = GameEngine.get_score Sample.engine_two_bullets
      + Config.ENEMY_POINTS
        * (Z.of_nat (length (GameEngine.enemies Sample.engine_two_bullets))
           - Z.of_nat (length (GameEngine.enemies g'))).
Proof.
  assert (Hdisj : forall r, r ∈ GameEngine.player_projectiles Sample.engine_two_bullets ->
                            r ∉ GameEngine.enemies Sample.engine_two_bullets).
  { intros r Hr Hen. cbn in Hr, Hen.
    apply list_elem_of_singleton in Hen. subst r.
    apply elem_of_cons in Hr as [Hr | Hr]; [discriminate |].
    apply list_elem_of_singleton in Hr. discriminate. }
  assert (Hnum : is_Some (Py.num (ScoreService.high_score
                            (GameEngine.score_service Sample.engine_two_bullets))))
    by (eexists; reflexivity).
  split; [exact Hdisj |]. split; [exact Hnum |].
  destruct (projectile_hits_resolved Sample.engine_two_bullets Hdisj Hnum)
    as (g' & Hrun & _ & _ & _ & _ & Hleaves & Hstays & _ & _ & Hscore).
  exists g'. split; [exact Hrun |]. split; [| split; [| exact Hscore]].
  - apply (Hleaves [] (RObj 0) [RObj 1] (RObj 2)).
    + reflexivity.
    + cbn. left.
    + reflexivity.
    + intros q Hq. apply elem_of_nil in Hq. contradiction.
  - apply Hstays. split; [cbn; right; left |].
    intros e He _. cbn in He. apply list_elem_of_singleton in He. subst e.
    exists (RObj 0). split; [cbn; left | reflexivity].
Defined.

(** C3, as the claim has it, fails: two projectiles overlap the same
    enemy; the first one takes it, and the second one, which overlapped
    it as well, is still in its group afterwards. *)
Lemma second_projectile_survives :
  overlap Sample.engine_two_bullets (RObj 0) (RObj 2) = true /\
  overlap Sample.engine_two_bullets (RObj 1) (RObj 2) = true /\
  exists g',
    GameEngine.check_collisions_projectiles Sample.engine_two_bullets = Py.Ok g' /\
    GameEngine.player_projectiles g' = [RObj 1] /\
    GameEngine.enemies g' = [] /\
    GameEngine.get_score g' = 10.
Proof.
  split; [reflexivity |]. split; [reflexivity |].
  eexists. split; [vm_compute; reflexivity |]. repeat split.
Qed.

(** ** Enemies against the player *)

Lemma check_collisions_player_shielded (g : GameEngine.t) :
  (0 < GameEngine.player_invulnerable_timer g)%Q ->
  GameEngine.check_collisions_player g = g.
Proof.
  intros Hpos. unfold GameEngine.check_collisions_player.
  destruct (Qle_bool (GameEngine.player_invulnerable_timer g) 0) eqn:E; [| reflexivity].
  apply Qle_bool_iff in E. lra.
Qed.

Lemma check_collisions_player_open (g : GameEngine.t) :
  (GameEngine.player_invulnerable_timer g <= 0)%Q ->
  GameEngine.check_collisions_player g
  = match filter (fun s => overlap g RPlayer s = true) (GameEngine.enemies g) with
    | [] => g
    | e :: c =>
      GameEngine.kill_each (e :: c)
        (GameEngine.set_player_invulnerable_timer Config.PLAYER_INVULNERABILITY_TIME
           (GameEngine.set_player (Player.take_damage (GameEngine.player g)) g))
    end.
Proof.
  intros Hle. unfold GameEngine.check_collisions_player.
  apply Qle_bool_iff in Hle. rewrite Hle.
  unfold GameEngine.spritecollide. rewrite spritecollide_loop_keep.
  change (fun s => overlap g RPlayer s = true)
    with (fun s => GameEngine.collides g (Player.rect (GameEngine.player g)) s = true).
  destruct (filter _ (GameEngine.enemies g)); reflexivity.
Qed.

(** C4.  While the engine's invulnerability timer is positive the second
    part of [check_collisions] changes nothing, whatever overlaps the
    player.  With the timer at or below zero: if no enemy overlaps the
    player nothing changes; if at least one does, the player loses exactly
    one life, the timer is set to [PLAYER_INVULNERABILITY_TIME], and the
    enemies that stay are exactly those that did not overlap the player
    (the others leave [all_sprites] too). *)
Theorem enemy_hits_cost_one_life (g : GameEngine.t) :
  let g' := GameEngine.check_collisions_player g in
  ((0 < GameEngine.player_invulnerable_timer g)%Q -> g' = g) /\
  ((GameEngine.player_invulnerable_timer g <= 0)%Q ->
   (forall e, e ∈ GameEngine.enemies g -> overlap g RPlayer e = false) -> g' = g) /\
  ((GameEngine.player_invulnerable_timer g <= 0)%Q ->
   (exists e, e ∈ GameEngine.enemies g /\ overlap g RPlayer e = true) ->
   Player.lives (GameEngine.player g') = Player.lives (GameEngine.player g) - 1 /\
   GameEngine.player_invulnerable_timer g' = Config.PLAYER_INVULNERABILITY_TIME /\
   Player.invulnerable_flash_timer (GameEngine.player g') = Config.PLAYER_INVULNERABILITY_TIME /\
   (forall e, e ∈ GameEngine.enemies g' <->
      e ∈ GameEngine.enemies g /\ overlap g RPlayer e = false) /\
   (forall e, e ∈ GameEngine.enemies g -> overlap g RPlayer e = true ->
      e ∉ GameEngine.all_sprites g') /\
   GameEngine.get_score g' = GameEngine.get_score g).
Proof.
  intros g'. subst g'. split; [apply check_collisions_player_shielded |]. split.
  - intros Hle Hfree. rewrite (check_collisions_player_open g Hle).
    destruct (filter _ (GameEngine.enemies g)) as [| e c] eqn:Hc; [reflexivity |].
    assert (Hin : e ∈ filter (fun s => overlap g RPlayer s = true) (GameEngine.enemies g))
      by (rewrite Hc; left).
    apply list_elem_of_filter in Hin as [Hov He]. rewrite (Hfree e He) in Hov. discriminate.
  - intros Hle (e0 & He0 & Hov0). rewrite (check_collisions_player_open g Hle).
    assert (Hin : e0 ∈ filter (fun s => overlap g RPlayer s = true) (GameEngine.enemies g))
      by (apply list_elem_of_filter; auto).
    destruct (filter _ (GameEngine.enemies g)) as [| e c] eqn:Hc;
      [apply elem_of_nil in Hin; contradiction |].
    rewrite kill_each_spec.
    cbn [GameEngine.set_groups GameEngine.set_player GameEngine.set_player_invulnerable_timer
           GameEngine.player GameEngine.player_invulnerable_timer GameEngine.enemies
           GameEngine.all_sprites Player.take_damage Player.lives
           Player.invulnerable_flash_timer].
    split; [reflexivity |]. split; [reflexivity |]. split; [reflexivity |].
    rewrite <- Hc. split; [| split].
    + intros x. rewrite !list_elem_of_filter.
      destruct (overlap g RPlayer x); intuition congruence.
    + intros x Hx Hov. rewrite !list_elem_of_filter. intros [Hnin _].
      apply Hnin. auto.
    + reflexivity.
Qed.

Lemma enemy_hits_cost_one_life_sample :
  (GameEngine.player_invulnerable_timer Sample.engine_rammed <= 0)%Q /\
  overlap Sample.engine_rammed RPlayer (RObj 0) = true /\
  overlap Sample.engine_rammed RPlayer (RObj 1) = true /\
  Player.lives (GameEngine.player Sample.engine_rammed) = 3 /\
  Player.lives (GameEngine.player (GameEngine.check_collisions_player Sample.engine_rammed))
  = 3 - 1.
Proof.
  assert (Hle : (GameEngine.player_invulnerable_timer Sample.engine_rammed <= 0)%Q)
    by discriminate.
  split; [exact Hle |]. split; [reflexivity |]. split; [reflexivity |].
  split; [reflexivity |].
  pose proof (enemy_hits_cost_one_life Sample.engine_rammed) as Hall.
  cbv zeta in Hall. destruct Hall as (_ & _ & Hhit).
  destruct Hhit as [Hlives _]; [exact Hle | | exact Hlives].
  exists (RObj 0). split; [left | reflexivity].
Defined.

(** ** The order of spawning and colliding *)

Lemma check_collisions_projectiles_shape (g : GameEngine.t) :
  is_Some (Py.num (ScoreService.high_score (GameEngine.score_service g))) ->
  exists hits g1 s',
    GameEngine.groupcollide_loop GameEngine.enemies true true
      (GameEngine.player_projectiles g) g = (hits, g1) /\
    GameEngine.check_collisions_projectiles g = Py.Ok (GameEngine.set_score_service s' g1).
Proof.
  intros Hnum.
  unfold GameEngine.check_collisions_projectiles, GameEngine.check_group_collision,
    GameEngine.groupcollide.
  destruct (GameEngine.groupcollide_loop GameEngine.enemies true true
              (GameEngine.player_projectiles g) g) as [hits g1] eqn:Hrun.
  assert (Hscore : GameEngine.score_service g1 = GameEngine.score_service g)
    by (rewrite (groupcollide_loop_groups _ _ _ _ Hrun); reflexivity).
  rewrite Hscore.
  destruct (award_total hits (GameEngine.score_service g) Hnum) as (s' & Haward & _).
  exists hits, g1, s'. rewrite Haward. auto.
Qed.

Lemma check_collisions_player_enemies (g : GameEngine.t) (x : ref) :
  x ∈ GameEngine.enemies (GameEngine.check_collisions_player g) ->
  x ∈ GameEngine.enemies g.
Proof.
  destruct (Qlt_le_dec 0 (GameEngine.player_invulnerable_timer g)) as [Hpos | Hle].
  - now rewrite check_collisions_player_shielded.
  - rewrite (check_collisions_player_open g Hle).
    destruct (filter _ (GameEngine.enemies g)) as [| e c]; [auto |].
    rewrite kill_each_spec.
    cbn [GameEngine.set_groups GameEngine.enemies GameEngine.set_player
           GameEngine.set_player_invulnerable_timer].
    intros Hin. apply list_elem_of_filter in Hin. tauto.
Qed.


Lemma update_spawn_due (rnd : Draw) (g : GameEngine.t) :
  (GameEngine.current_spawn_rate g <= GameEngine.enemy_spawn_timer g + GameEngine.delta_time g)%Q ->
  GameEngine.update_spawn rnd g
  = GameEngine.set_enemy_spawn_timer 0
      (GameEngine.spawn_enemy rnd
         (GameEngine.set_enemy_spawn_timer
            (GameEngine.enemy_spawn_timer g + GameEngine.delta_time g)%Q g)).
Proof.
  intros Hdue. unfold GameEngine.update_spawn.
  cbn [GameEngine.set_enemy_spawn_timer GameEngine.current_spawn_rate
         GameEngine.enemy_spawn_timer GameEngine.delta_time].
  apply Qle_bool_iff in Hdue. rewrite Hdue. reflexivity.
Qed.








Lemma Group_update_total `{Transform} (dt : Q) (snapshot : list ref) :
  forall g : GameEngine.t,
    RPlayer ∉ snapshot ->
    exists g', GameEngine.Group_update [AFloat dt] snapshot g = Py.Ok g'.
Proof.
  induction snapshot as [| s rest IH]; intros g Hout; [eexists; reflexivity |].
  apply not_elem_of_cons in Hout as [Hs Hrest].
  destruct s as [| id]; [congruence |].
  destruct (call_update_object_total dt id g) as [g1 Hg1].
  cbn [GameEngine.Group_update]. rewrite Hg1. cbn [Py.bind]. apply IH, Hrest.
Qed.

(** The first steps of a frame return exactly on the engines that keep
    the player out of [all_sprites]: this is what C1 leaves of [update]. *)
Lemma update_to_sprites_total `{Transform}
    (input_state : InputState) (tick : Z) (g : GameEngine.t) :
  RPlayer ∉ GameEngine.all_sprites g ->
  exists g0, update_to_sprites input_state tick g = Py.Ok g0.
Proof.
  intros Hout. unfold update_to_sprites. cbn [GameEngine.call_update Py.bind].
  apply Group_update_total.
  unfold GameEngine.update_shoot.
  destruct (shoot input_state && Player.can_shoot _); [| exact Hout].
  destruct (Player.shoot _) as [[pr |] p]; simpl; [| exact Hout].
  intros Hin. apply elem_of_Group_add in Hin as [Heq | Hin]; [discriminate | exact (Hout Hin)].
Qed.




(** * Further properties of the code *)

(** ** collision_service: rectangles and the screen *)

Lemma keep_in_bounds_clamp (r : Rect.t) (sw sh : Z) :
  0 <= Rect.w r <= sw -> 0 <= Rect.h r <= sh ->
  collision_service.keep_in_bounds r sw sh
  = Rect.mk (Z.min (Z.max (Rect.x r) 0) (sw - Rect.w r))
            (Z.min (Z.max (Rect.y r) 0) (sh - Rect.h r))
            (Rect.w r) (Rect.h r).
Proof.
  intros Hw Hh. destruct r as [x y w h]. cbn [Rect.x Rect.y Rect.w Rect.h] in *.
  unfold collision_service.keep_in_bounds, Rect.left, Rect.right, Rect.top, Rect.bottom,
    Rect.set_left, Rect.set_right, Rect.set_top, Rect.set_bottom, Rect.set_x, Rect.set_y.
  cbn [Rect.x Rect.y Rect.w Rect.h].
  rect_cases; cbn [Rect.x Rect.y Rect.w Rect.h] in *; f_equal; lia.
Qed.

Lemma keep_in_bounds_fixed (r : Rect.t) (sw sh : Z) :
  on_screen r sw sh -> collision_service.keep_in_bounds r sw sh = r.
Proof.
  unfold on_screen, Rect.left, Rect.right, Rect.top, Rect.bottom.
  intros (Hl & Hr & Ht & Hb). destruct r as [x y w h]. cbn [Rect.x Rect.y Rect.w Rect.h] in *.
  unfold collision_service.keep_in_bounds, Rect.left, Rect.right, Rect.top, Rect.bottom.
  cbn [Rect.x Rect.y Rect.w Rect.h].
  rect_cases; try lia. reflexivity.
Qed.

Lemma keep_in_bounds_on_screen (r : Rect.t) (sw sh : Z) :
  0 <= Rect.w r <= sw -> 0 <= Rect.h r <= sh ->
  on_screen (collision_service.keep_in_bounds r sw sh) sw sh.
Proof.
  intros Hw Hh. rewrite keep_in_bounds_clamp by assumption.
  unfold on_screen, Rect.left, Rect.right, Rect.top, Rect.bottom.
  cbn [Rect.x Rect.y Rect.w Rect.h]. lia.
Qed.

(** X1.  [keep_in_bounds] on a rectangle that fits the screen, rectangle
    and screen size within the range of C ints: the result lies within the
    screen, keeps its size, and is the nearest such position: each
    coordinate is clamped between 0 and the screen size less the
    rectangle's size.  No field or edge leaves the range on the way. *)
Theorem keep_in_bounds_moves_onto_screen (r : Rect.t) (sw sh : Z) :
  in_c_ints r -> c_int sw -> c_int sh ->
  0 <= Rect.w r <= sw -> 0 <= Rect.h r <= sh ->
  let r' := collision_service.keep_in_bounds r sw sh in
  on_screen r' sw sh /\
  in_c_ints r' /\
  Rect.w r' = Rect.w r /\ Rect.h r' = Rect.h r /\
  Rect.x r' = Z.min (Z.max (Rect.x r) 0) (sw - Rect.w r) /\
  Rect.y r' = Z.min (Z.max (Rect.y r) 0) (sh - Rect.h r).
Proof.
  intros Hr Hsw Hsh Hw Hh r'. subst r'.
  split; [apply keep_in_bounds_on_screen; assumption |].
  rewrite keep_in_bounds_clamp by assumption.
  split; [| cbn; auto].
  unfold in_c_ints, c_int, Rect.right, Rect.bottom in *.
  cbn [Rect.x Rect.y Rect.w Rect.h]. lia.
Qed.

Lemma keep_in_bounds_moves_onto_screen_sample :
  in_c_ints (Rect.mk (-5) 590 30 40) /\ c_int 800 /\ c_int 600 /\
  0 <= 30 <= 800 /\ 0 <= 40 <= 600 /\
  Rect.x (collision_service.keep_in_bounds (Rect.mk (-5) 590 30 40) 800 600) = 0 /\
  Rect.y (collision_service.keep_in_bounds (Rect.mk (-5) 590 30 40) 800 600) = 560.
Proof.
  assert (Hr : in_c_ints (Rect.mk (-5) 590 30 40))
    by (unfold in_c_ints, c_int, Rect.right, Rect.bottom;
        cbn [Rect.x Rect.y Rect.w Rect.h]; lia).
  assert (Hsw : c_int 800) by (unfold c_int; lia).
  assert (Hsh : c_int 600) by (unfold c_int; lia).
  assert (Hw : 0 <= Rect.w (Rect.mk (-5) 590 30 40) <= 800) by (cbn; lia).
  assert (Hh : 0 <= Rect.h (Rect.mk (-5) 590 30 40) <= 600) by (cbn; lia).
  split; [exact Hr |]. split; [exact Hsw |]. split; [exact Hsh |].
  split; [exact Hw |]. split; [exact Hh |].
  pose proof (keep_in_bounds_moves_onto_screen (Rect.mk (-5) 590 30 40) 800 600
                Hr Hsw Hsh Hw Hh) as Hall.
  cbv zeta in Hall. destruct Hall as (_ & _ & _ & _ & Hx & Hy).
  split; [exact Hx | exact Hy].
Defined.

(** X2.  [keep_in_bounds] leaves a rectangle that already lies within the
    screen exactly as it is; so on a rectangle that fits the screen a second
    application changes nothing. *)
Theorem keep_in_bounds_idempotent (r : Rect.t) (sw sh : Z) :
  (on_screen r sw sh -> collision_service.keep_in_bounds r sw sh = r) /\
  (0 <= Rect.w r <= sw -> 0 <= Rect.h r <= sh ->
   collision_service.keep_in_bounds (collision_service.keep_in_bounds r sw sh) sw sh
   = collision_service.keep_in_bounds r sw sh).
Proof.
  split; [apply keep_in_bounds_fixed |].
  intros Hw Hh. apply keep_in_bounds_fixed, keep_in_bounds_on_screen; assumption.
Qed.

Lemma keep_in_bounds_idempotent_sample :
  collision_service.keep_in_bounds (Rect.mk 385 490 30 40) 800 600 = Rect.mk 385 490 30 40.
Proof.
  destruct (keep_in_bounds_idempotent (Rect.mk 385 490 30 40) 800 600) as [Hfixed _].
  apply Hfixed. repeat split; vm_compute; discriminate.
Defined.

(** X3.  [keep_in_bounds] on a rectangle wider than the screen (rectangle
    and screen size within the range of C ints) does not bring it onto the
    screen: whatever its position, it ends with its right edge on the right
    edge of the screen and its left edge hanging out on the left.  A
    rectangle taller than the screen likewise ends flush with the bottom
    edge.  No field or edge leaves the range on the way. *)
Theorem keep_in_bounds_oversize (r : Rect.t) (sw sh : Z) :
  in_c_ints r -> 0 <= sw < 2 ^ 31 -> 0 <= sh < 2 ^ 31 ->
  in_c_ints (collision_service.keep_in_bounds r sw sh) /\
  (sw < Rect.w r ->
   Rect.right (collision_service.keep_in_bounds r sw sh) = sw /\
   Rect.left (collision_service.keep_in_bounds r sw sh) < 0) /\
  (sh < Rect.h r ->
   Rect.bottom (collision_service.keep_in_bounds r sw sh) = sh /\
   Rect.top (collision_service.keep_in_bounds r sw sh) < 0).
Proof.
  destruct r as [x y w h].
  unfold in_c_ints, c_int, collision_service.keep_in_bounds, Rect.left, Rect.right,
    Rect.top, Rect.bottom, Rect.set_left, Rect.set_right, Rect.set_top, Rect.set_bottom,
    Rect.set_x, Rect.set_y.
  cbn [Rect.x Rect.y Rect.w Rect.h].
  intros Hr Hsw Hsh.
  split; [| split; intros Hbig];
    rect_cases; cbn [Rect.x Rect.y Rect.w Rect.h] in *; lia.
Qed.

Lemma keep_in_bounds_oversize_sample :
  in_c_ints (Rect.mk 10 10 900 40) /\ 0 <= 800 < 2 ^ 31 /\ 0 <= 600 < 2 ^ 31 /\
  Rect.right (collision_service.keep_in_bounds (Rect.mk 10 10 900 40) 800 600) = 800 /\
  Rect.left (collision_service.keep_in_bounds (Rect.mk 10 10 900 40) 800 600) < 0.
Proof.
  assert (Hr : in_c_ints (Rect.mk 10 10 900 40))
    by (unfold in_c_ints, c_int, Rect.right, Rect.bottom;
        cbn [Rect.x Rect.y Rect.w Rect.h]; lia).
  assert (Hsw : 0 <= 800 < 2 ^ 31) by lia.
  assert (Hsh : 0 <= 600 < 2 ^ 31) by lia.
  split; [exact Hr |]. split; [exact Hsw |]. split; [exact Hsh |].
  destruct (keep_in_bounds_oversize (Rect.mk 10 10 900 40) 800 600 Hr Hsw Hsh)
    as (_ & Hwide & _).
  apply Hwide. reflexivity.
Defined.



(** ** The player *)

Lemma Player_update_rect (input_state : InputState) (dt : Q) (p : Player.t) :
  Player.rect (Player.update input_state dt p)
  = collision_service.keep_in_bounds
      (Rect.mk (Rect.x (Player.rect p) + step_x input_state) (Rect.y (Player.rect p) + 0)
               (Rect.w (Player.rect p)) (Rect.h (Player.rect p)))
      Config.SCREEN_WIDTH Config.SCREEN_HEIGHT.
Proof.
  unfold Player.update, step_x.
  destruct (Py.Qlt_bool 0 (Player.invulnerable_flash_timer p)); reflexivity.
Qed.

Lemma Player_update_on_screen (input_state : InputState) (dt : Q) (p : Player.t) :
  0 <= Rect.w (Player.rect p) <= Config.SCREEN_WIDTH ->
  0 <= Rect.h (Player.rect p) <= Config.SCREEN_HEIGHT ->
  on_screen (Player.rect (Player.update input_state dt p))
    Config.SCREEN_WIDTH Config.SCREEN_HEIGHT /\
  Rect.w (Player.rect (Player.update input_state dt p)) = Rect.w (Player.rect p) /\
  Rect.h (Player.rect (Player.update input_state dt p)) = Rect.h (Player.rect p).
Proof.
  intros Hw Hh. rewrite Player_update_rect. split.
  - apply keep_in_bounds_on_screen; assumption.
  - rewrite keep_in_bounds_clamp by assumption. split; reflexivity.
Qed.

(** X5.  A player that is on the screen stays on the screen: after any
    number of frames, whatever keys are held and however long the frames
    are, its rectangle lies within the screen and has kept its size. *)
Theorem player_stays_on_screen (frames : list (InputState * Q)) (p : Player.t) :
  on_screen (Player.rect p) Config.SCREEN_WIDTH Config.SCREEN_HEIGHT ->
  0 <= Rect.w (Player.rect p) ->
  0 <= Rect.h (Player.rect p) ->
  on_screen (Player.rect (play frames p)) Config.SCREEN_WIDTH Config.SCREEN_HEIGHT /\
  Rect.w (Player.rect (play frames p)) = Rect.w (Player.rect p) /\
  Rect.h (Player.rect (play frames p)) = Rect.h (Player.rect p).
Proof.
  revert p. induction frames as [| [input_state dt] rest IH]; intros p Hon Hw Hh;
    [cbn [play]; auto |].
  cbn [play].
  assert (Hfit : 0 <= Rect.w (Player.rect p) <= Config.SCREEN_WIDTH /\
                 0 <= Rect.h (Player.rect p) <= Config.SCREEN_HEIGHT).
  { unfold on_screen, Rect.left, Rect.right, Rect.top, Rect.bottom in Hon. lia. }
  destruct (Player_update_on_screen input_state dt p (proj1 Hfit) (proj2 Hfit))
    as (Hon' & Hw' & Hh').
  destruct (IH (Player.update input_state dt p)) as (Hon2 & Hw2 & Hh2);
    [exact Hon' | rewrite Hw'; exact Hw | rewrite Hh'; exact Hh |].
  rewrite Hw2, Hh2. auto.
Qed.

Lemma player_stays_on_screen_sample :
  on_screen (Rect.mk 2 490 30 40) Config.SCREEN_WIDTH Config.SCREEN_HEIGHT /\
  on_screen
    (Player.rect
       (play [({| move_left := true; move_right := false; move_up := false;
                  move_down := false; shoot := false |}, 16 # 1000)]
             (Player.mk (Rect.mk 2 490 30 40) 3 3 0 0 255)))
    Config.SCREEN_WIDTH Config.SCREEN_HEIGHT.
Proof.
  assert (Hon : on_screen (Player.rect (Player.mk (Rect.mk 2 490 30 40) 3 3 0 0 255))
                  Config.SCREEN_WIDTH Config.SCREEN_HEIGHT)
    by (repeat split; vm_compute; discriminate).
  split; [exact Hon |].
  refine (proj1 (player_stays_on_screen _ (Player.mk (Rect.mk 2 490 30 40) 3 3 0 0 255)
                   Hon _ _)); discriminate.
Defined.

(** X6.  How the keys move a player that is on the screen: the vertical
    position never changes, and the horizontal position moves by
    [PLAYER_SPEED] to the left or right and is then clamped to the screen.
    Holding both keys, or neither, leaves the rectangle where it is. *)
Theorem player_moves_sideways_only (input_state : InputState) (dt : Q) (p : Player.t) :
  on_screen (Player.rect p) Config.SCREEN_WIDTH Config.SCREEN_HEIGHT ->
  0 <= Rect.w (Player.rect p) -> 0 <= Rect.h (Player.rect p) ->
  let r' := Player.rect (Player.update input_state dt p) in
  Rect.y r' = Rect.y (Player.rect p) /\
  Rect.x r'
  = Z.min (Z.max (Rect.x (Player.rect p) + step_x input_state) 0)
          (Config.SCREEN_WIDTH - Rect.w (Player.rect p)) /\
  (move_left input_state = move_right input_state -> r' = Player.rect p).
Proof.
  intros Hon Hw Hh r'. subst r'.
  unfold on_screen, Rect.left, Rect.right, Rect.top, Rect.bottom in Hon.
  destruct Hon as (Hl & Hr & Ht & Hb). rewrite Player_update_rect.
  rewrite keep_in_bounds_clamp by (cbn [Rect.w Rect.h]; lia).
  cbn [Rect.x Rect.y Rect.w Rect.h].
  split; [lia |]. split; [reflexivity |].
  intros Hsame. unfold step_x, Config.PLAYER_SPEED. rewrite Hsame.
  destruct (Player.rect p) as [x y w h]. cbn [Rect.x Rect.y Rect.w Rect.h] in *.
  destruct (move_right input_state); f_equal; lia.
Qed.

Lemma player_moves_sideways_only_sample :
  Rect.x (Player.rect (Player.update
            {| move_left := false; move_right := true; move_up := false;
               move_down := false; shoot := false |} (16 # 1000)
            (GameEngine.player Sample.engine))) = 390.
Proof.
  pose proof (player_moves_sideways_only
                {| move_left := false; move_right := true; move_up := false;
                   move_down := false; shoot := false |} (16 # 1000)
                (GameEngine.player Sample.engine)) as Hall.
  cbv zeta in Hall. destruct Hall as (_ & Hx & _).
  - repeat split; vm_compute; discriminate.
  - discriminate.
  - discriminate.
  - exact Hx.
Defined.

(** X7.  [Player.shoot].  A player whose cooldown has run out fires one
    projectile: it is centred on the middle of the player's top edge, flies
    straight up at [PROJECTILE_SPEED], and the cooldown is set to
    [PROJECTILE_COOLDOWN], so that the player cannot shoot again at once.
    A player whose cooldown is still running gets [None] and is not
    changed. *)
Theorem shoot_fires_from_top_centre (p : Player.t) :
  (Player.can_shoot p = true ->
   exists pr,
     Player.shoot p = (Some pr, snd (Player.shoot p)) /\
     Rect.centerx (Projectile.rect pr) = Rect.centerx (Player.rect p) /\
     Rect.centery (Projectile.rect pr) = Rect.top (Player.rect p) /\
     Rect.w (Projectile.rect pr) = Config.PROJECTILE_WIDTH /\
     Rect.h (Projectile.rect pr) = Config.PROJECTILE_HEIGHT /\
     Projectile.velocity_x pr = 0%Q /\
     Projectile.velocity_y pr = inject_Z (- Config.PROJECTILE_SPEED) /\
     Player.shoot_cooldown (snd (Player.shoot p)) = Config.PROJECTILE_COOLDOWN /\
     Player.can_shoot (snd (Player.shoot p)) = false /\
     Player.rect (snd (Player.shoot p)) = Player.rect p /\
     Player.lives (snd (Player.shoot p)) = Player.lives p) /\
  (Player.can_shoot p = false -> Player.shoot p = (None, p)).
Proof.
  unfold Player.shoot. split; intros Hcan; rewrite Hcan; cbn [negb]; [| reflexivity].
  eexists. split; [reflexivity |]. cbn [snd].
  unfold Projectile.init, Rect.centerx, Rect.centery, Rect.top, Rect.set_centerx,
    Rect.set_centery, Rect.set_x, Rect.set_y, Rect.of_size, Config.PROJECTILE_WIDTH,
    Config.PROJECTILE_HEIGHT.
  cbn [Projectile.rect Projectile.velocity_x Projectile.velocity_y Rect.x Rect.y Rect.w Rect.h
         Player.shoot_cooldown Player.rect Player.lives].
  repeat split; try reflexivity.
  - change (4 / 2) with 2. lia.
  - change (12 / 2) with 6. lia.
Qed.

Lemma shoot_fires_from_top_centre_sample :
  exists pr,
    Player.shoot (GameEngine.player Sample.engine)
    = (Some pr, snd (Player.shoot (GameEngine.player Sample.engine))) /\
    Rect.centerx (Projectile.rect pr) = 400 /\
    Rect.centery (Projectile.rect pr) = 490.
Proof.
  destruct (shoot_fires_from_top_centre (GameEngine.player Sample.engine)) as [Hfire _].
  destruct (Hfire eq_refl) as (pr & Hshoot & Hx & Hy & _).
  exists pr. split; [exact Hshoot |]. split; [exact Hx | exact Hy].
Defined.

Lemma Player_update_cooldown_done (input_state : InputState) (dt : Q) (p : Player.t) :
  (Player.shoot_cooldown p <= 0)%Q ->
  Player.shoot_cooldown (Player.update input_state dt p) = Player.shoot_cooldown p.
Proof.
  intros Hle. rewrite Player_update_shoot_cooldown.
  apply Qlt_bool_false in Hle. rewrite Hle. reflexivity.
Qed.

Lemma play_cooldown_done (frames : list (InputState * Q)) :
  forall p : Player.t,
    (Player.shoot_cooldown p <= 0)%Q ->
    Player.shoot_cooldown (play frames p) = Player.shoot_cooldown p.
Proof.
  induction frames as [| [input_state dt] rest IH]; intros p Hle; [reflexivity |].
  cbn [play]. rewrite IH; rewrite Player_update_cooldown_done; auto.
Qed.

Lemma can_shoot_iff (p : Player.t) :
  Player.can_shoot p = true <-> (Player.shoot_cooldown p <= 0)%Q.
Proof. unfold Player.can_shoot. apply Qle_bool_iff. Qed.

Lemma play_cooldown_falls (frames : list (InputState * Q)) :
  forall p : Player.t,
    Forall (fun f => (0 <= snd f)%Q) frames ->
    (Player.shoot_cooldown (play frames p) <= Player.shoot_cooldown p)%Q.
Proof.
  induction frames as [| [input_state dt] rest IH]; intros p Hpos; [cbn [play]; lra |].
  apply Forall_cons in Hpos as [Hdt Hrest]. cbn [snd] in Hdt. cbn [play].
  pose proof (IH (Player.update input_state dt p) Hrest) as Hle.
  rewrite Player_update_shoot_cooldown in Hle.
  destruct (Py.Qlt_bool 0 (Player.shoot_cooldown p)); lra.
Qed.

(** X8.  The shot cooldown only runs down.  Over frames of non-negative
    duration it never grows.  Once it has run out no number of frames
    changes it: a player that can shoot stays able to shoot, whatever keys
    are held and however long the frames are.  And one frame at least as
    long as what is left of the cooldown always ends it.  (The time at
    which a cooldown counted down over several frames runs out depends on
    the rounding of each subtraction and is not stated.) *)
Theorem cooldown_only_runs_down (frames : list (InputState * Q)) (p : Player.t) :
  Forall (fun f => (0 <= snd f)%Q) frames ->
  (Player.shoot_cooldown (play frames p) <= Player.shoot_cooldown p)%Q /\
  (Player.can_shoot p = true ->
   Player.shoot_cooldown (play frames p) = Player.shoot_cooldown p /\
   Player.can_shoot (play frames p) = true) /\
  (forall input_state dt,
     (Player.shoot_cooldown p <= dt)%Q ->
     Player.can_shoot (Player.update input_state dt p) = true).
Proof.
  intros Hpos. split; [apply play_cooldown_falls, Hpos |]. split.
  - intros Hcan. apply can_shoot_iff in Hcan.
    split; [apply play_cooldown_done, Hcan |].
    apply can_shoot_iff. rewrite play_cooldown_done; exact Hcan.
  - intros input_state dt Hdt. apply can_shoot_iff.
    rewrite Player_update_shoot_cooldown.
    destruct (Py.Qlt_bool 0 (Player.shoot_cooldown p)) eqn:E.
    + lra.
    + apply Qlt_bool_false in E. exact E.
Qed.

(** After a shot, one frame of 0.3 s or more ends the cooldown; two frames
    of 16 and 17 ms lower it. *)
Lemma cooldown_only_runs_down_sample :
  Forall (fun f => (0 <= snd f)%Q) [(Sample.no_keys, 16 # 1000); (Sample.no_keys, 17 # 1000)] /\
  (Player.shoot_cooldown
     (play [(Sample.no_keys, 16 # 1000); (Sample.no_keys, 17 # 1000)]
           (snd (Player.shoot (GameEngine.player Sample.engine))))
   <= Config.PROJECTILE_COOLDOWN)%Q /\
  Player.can_shoot
    (Player.update Sample.no_keys (3 # 10)
       (snd (Player.shoot (GameEngine.player Sample.engine)))) = true.
Proof.
  assert (Hpos : Forall (fun f : InputState * Q => (0 <= snd f)%Q)
                   [(Sample.no_keys, 16 # 1000); (Sample.no_keys, 17 # 1000)])
    by (repeat constructor; discriminate).
  split; [exact Hpos |].
  destruct (cooldown_only_runs_down
              [(Sample.no_keys, 16 # 1000); (Sample.no_keys, 17 # 1000)]
              (snd (Player.shoot (GameEngine.player Sample.engine))) Hpos)
    as (Hfalls & _ & Hends).
  split; [exact Hfalls |].
  apply Hends. discriminate.
Defined.

(** X9.  [Player.heal] never lifts the lives above [max_lives].  For a
    player with at most [max_lives] lives, healing by a non-negative amount
    does not lower them, healing by the number of missing lives or more
    restores [max_lives], and [heal(1)] undoes one [take_damage]. *)
Theorem heal_is_capped (amount : Z) (p : Player.t) :
  Player.lives (Player.heal amount p) <= Player.max_lives p /\
  Player.max_lives (Player.heal amount p) = Player.max_lives p /\
  (Player.lives p <= Player.max_lives p ->
   (0 <= amount -> Player.lives p <= Player.lives (Player.heal amount p)) /\
   (Player.max_lives p - Player.lives p <= amount ->
    Player.lives (Player.heal amount p) = Player.max_lives p) /\
   Player.lives (Player.heal 1 (Player.take_damage p)) = Player.lives p).
Proof.
  unfold Player.heal, Player.take_damage.
  cbn [Player.lives Player.max_lives]. split; [lia |]. split; [reflexivity |].
  intros Hle. repeat split; intros; lia.
Qed.

Lemma heal_is_capped_sample :
  Player.lives (Player.heal 5 (GameEngine.player Sample.engine_over)) = 3.
Proof.
  destruct (heal_is_capped 5 (GameEngine.player Sample.engine_over)) as (_ & _ & Hrest).
  destruct Hrest as (_ & Hfull & _); [vm_compute; discriminate |].
  apply Hfull. vm_compute. discriminate.
Defined.

(** ** The score service *)

(** X10.  [is_high_score] after [add_points], for an integer high score:
    the call answers whether the new current score reached the high score
    held before the points were added; a tie counts. *)
Theorem is_high_score_after_add_points (points : Z) (s : ScoreService.t) (h : Z) :
  ScoreService.high_score s = Py.JInt h ->
  exists s',
    ScoreService.add_points points s = Py.Ok s' /\
    ScoreService.is_high_score s'
    = Py.Ok (h <=? ScoreService.current_score s + points).
Proof.
  intros Hh. rewrite (add_points_running_max points s h Hh). eexists. split; [reflexivity |].
  unfold ScoreService.is_high_score, Py.int_ge.
  cbn [ScoreService.current_score ScoreService.high_score Py.num]. f_equal.
  destruct (Z.leb_spec h (ScoreService.current_score s + points)) as [Hle | Hgt].
  - apply Qle_bool_iff. rewrite <- Zle_Qle. lia.
  - destruct (Qle_bool _ _) eqn:E; [| reflexivity].
    apply Qle_bool_iff in E. rewrite <- Zle_Qle in E. lia.
Qed.

Lemma is_high_score_after_add_points_sample :
  exists s',
    ScoreService.add_points 10 Sample.score_500 = Py.Ok s' /\
    ScoreService.is_high_score s' = Py.Ok true.
Proof.
  exact (is_high_score_after_add_points 10 Sample.score_500 500 eq_refl).
Defined.

(** X11.  A save file whose ["high_score"] is not a number.  The file is
    read without complaint and the service is constructed with that value
    as its high score; from then on every [add_points] and every
    [is_high_score] raises a [TypeError], because the score is compared
    with it. *)
Theorem non_numeric_high_score_raises (l : list (string * Py.json)) (w : World.t) :
  World.file w = Some (World.Text (Py.JObj l)) ->
  World.readable w = true ->
  Py.num (Py.dict_get l "high_score" (Py.JInt 0)) = None ->
  exists s,
    ScoreService.init w = (Py.Ok s, w) /\
    ScoreService.high_score s = Py.dict_get l "high_score" (Py.JInt 0) /\
    (forall points, exists msg, ScoreService.add_points points s = Py.Err (Py.TypeError msg)) /\
    (exists msg, ScoreService.is_high_score s = Py.Err (Py.TypeError msg)).
Proof.
  intros Hfile Hr Hnum. eexists. split.
  - unfold ScoreService.init, World.bind.
    rewrite (load_high_score_object l w Hfile Hr). reflexivity.
  - cbn [ScoreService.high_score]. split; [reflexivity |]. split.
    + intros points. unfold ScoreService.add_points, Py.int_gt.
      cbn [ScoreService.high_score]. rewrite Hnum. eexists. reflexivity.
    + unfold ScoreService.is_high_score, Py.int_ge.
      cbn [ScoreService.high_score]. rewrite Hnum. eexists. reflexivity.
Qed.

Lemma non_numeric_high_score_raises_sample :
  exists s,
    ScoreService.init Sample.edited_file = (Py.Ok s, Sample.edited_file) /\
    ScoreService.high_score s = Py.JStr "lots" /\
    exists msg, ScoreService.add_points 10 s = Py.Err (Py.TypeError msg).
Proof.
  destruct (non_numeric_high_score_raises
              [("high_score"%string, Py.JStr "lots")] Sample.edited_file
              eq_refl eq_refl eq_refl) as (s & Hinit & Hhigh & Hadd & _).
  exists s. split; [exact Hinit |]. split; [exact Hhigh | exact (Hadd 10)].
Defined.

(** X12.  What [load_high_score] takes from a readable JSON object: the
    value under ["high_score"], and 0 when the object has no such key; the
    other keys play no part, and neither the file nor the log is touched. *)
Theorem load_high_score_reads_the_key (l : list (string * Py.json)) (w : World.t) :
  World.file w = Some (World.Text (Py.JObj l)) ->
  World.readable w = true ->
  ScoreService.load_high_score w = (Py.Ok (Py.dict_get l "high_score" (Py.JInt 0)), w) /\
  ((forall v, (("high_score"%string, v) ∈ l -> False)) ->
   fst (ScoreService.load_high_score w) = Py.Ok (Py.JInt 0)) /\
  (forall k v w', k <> "high_score"%string ->
     World.file w' = Some (World.Text (Py.JObj ((k, v) :: l))) ->
     World.readable w' = true ->
     fst (ScoreService.load_high_score w') = fst (ScoreService.load_high_score w)).
Proof.
  intros Hfile Hr. rewrite (load_high_score_object l w Hfile Hr).
  split; [reflexivity |]. split.
  - intros Habsent. cbn [fst]. f_equal.
    induction l as [| [k v] rest IH] in Habsent |- *; [reflexivity |].
    cbn [Py.dict_get]. destruct (String.eqb_spec k "high_score") as [-> | Hne].
    + exfalso. apply (Habsent v). left.
    + apply IH. intros v' Hin. apply (Habsent v'). now right.
  - intros k v w' Hne Hfile' Hr'.
    rewrite (load_high_score_object _ w' Hfile' Hr'). cbn [fst Py.dict_get].
    destruct (String.eqb_spec k "high_score") as [-> | _]; [congruence | reflexivity].
Qed.

Lemma load_high_score_reads_the_key_sample :
  ScoreService.load_high_score Sample.full_disk = (Py.Ok (Py.JInt 500), Sample.full_disk).
Proof.
  exact (proj1 (load_high_score_reads_the_key
                  [("high_score"%string, Py.JInt 500)] Sample.full_disk eq_refl eq_refl)).
Defined.

(** X13.  A save that fails.  Without write permission the file is left as
    it was.  With permission but no space left the file has already been
    truncated by [open(..., 'w')]: the save returns normally, nothing is
    written, and the next load finds no usable score and returns 0, so the
    score saved earlier is lost.  Either way one warning is printed. *)
Theorem failed_save_outcomes (s : ScoreService.t) (w : World.t) :
  (World.writable w = false ->
   ScoreService.save_high_score s w
   = (Py.Ok tt, World.emit (World.Printed "Warning: Could not save high score") w)) /\
  (World.writable w = true -> World.disk_full w = true ->
   let w' := snd (ScoreService.save_high_score s w) in
   fst (ScoreService.save_high_score s w) = Py.Ok tt /\
   World.file w' = Some World.Garbage /\
   World.dumps w' = World.dumps w /\
   World.log w' = World.log w ++ [World.Printed "Warning: Could not save high score"] /\
   fst (ScoreService.load_high_score w') = Py.Ok (Py.JInt 0)).
Proof.
  split.
  - intros Hw.
    unfold ScoreService.save_high_score, World.try_except, World.bind, World.open_write,
      World.print.
    rewrite Hw. reflexivity.
  - intros Hw Hd.
    assert (Hsave : ScoreService.save_high_score s w
                    = (Py.Ok tt,
                       World.emit (World.Printed "Warning: Could not save high score")
                         (World.set_file (Some World.Garbage) w))).
    { unfold ScoreService.save_high_score, World.try_except, World.bind, World.open_write,
        World.json_dump, World.print.
      rewrite Hw. cbn. rewrite Hd. reflexivity. }
    cbv zeta. rewrite Hsave. cbn [fst snd].
    split; [reflexivity |]. split; [reflexivity |]. split.
    + unfold World.dumps, World.emit, World.set_file. cbn [World.log].
      rewrite List.filter_app. cbn. now rewrite app_nil_r.
    + split; [reflexivity |]. apply load_high_score_unparsable. reflexivity.
Qed.

Lemma failed_save_outcomes_sample :
  fst (ScoreService.load_high_score Sample.full_disk) = Py.Ok (Py.JInt 500) /\
  fst (ScoreService.load_high_score
         (snd (ScoreService.save_high_score Sample.score_500 Sample.full_disk)))
  = Py.Ok (Py.JInt 0) /\
  World.file (snd (ScoreService.save_high_score Sample.score_500 Sample.read_only))
  = World.file Sample.read_only.
Proof.
  destruct (failed_save_outcomes Sample.score_500 Sample.full_disk) as [_ Hfull].
  destruct (failed_save_outcomes Sample.score_500 Sample.read_only) as [Hro _].
  split; [reflexivity |]. split.
  - apply (Hfull eq_refl eq_refl).
  - rewrite (Hro eq_refl). reflexivity.
Defined.

(** ** The engine: reset, cleanup and spawning *)

(** X14.  [reset] brings any engine back to the state of a freshly
    constructed one that keeps the high score: apart from the heap of
    sprite objects that are no longer in any group and the last
    [delta_time], the result is the fresh engine.  A second [reset] changes
    nothing, and after a [reset] the game is not over: [is_game_over]
    answers false and saves nothing. *)
Theorem reset_restores_fresh_engine (g : GameEngine.t) (w : World.t) :
  GameEngine.set_delta_time 0 (GameEngine.set_heap ∅ 0%nat (GameEngine.reset g))
  = GameEngine.fresh
      (ScoreService.mk 0 (ScoreService.high_score (GameEngine.score_service g))) /\
  GameEngine.reset (GameEngine.reset g) = GameEngine.reset g /\
  GameEngine.is_game_over (GameEngine.reset g) w = (Py.Ok false, w).
Proof.
  destruct g. repeat split.
Qed.

Lemma cleanup_loop_kills (margin : Z) (snapshot : list ref) :
  forall g : GameEngine.t,
    GameEngine.cleanup_loop margin snapshot g
    = GameEngine.kill_each
        (filter (fun s =>
                   match GameEngine.rect_of g s with
                   | Some r => collision_service.check_out_of_bounds r
                                 Config.SCREEN_WIDTH Config.SCREEN_HEIGHT margin
                   | None => false
                   end = true) snapshot) g.
Proof.
  induction snapshot as [| s rest IH]; intros g; [reflexivity |].
  cbn [GameEngine.cleanup_loop].
  destruct (GameEngine.rect_of g s) as [r |] eqn:Hrect.
  - destruct (collision_service.check_out_of_bounds r _ _ margin) eqn:Hout.
    + rewrite filter_cons_True by (rewrite Hrect; exact Hout).
      rewrite IH. reflexivity.
    + rewrite filter_cons_False by (rewrite Hrect, Hout; discriminate). apply IH.
  - rewrite filter_cons_False by (rewrite Hrect; discriminate). apply IH.
Qed.

Lemma cleanup_sprites_groups (g : GameEngine.t) :
  exists gone : list ref,
    (forall s, s ∈ gone <->
       outside g s = true /\
       (s ∈ GameEngine.player_projectiles g \/ s ∈ GameEngine.enemies g)) /\
    GameEngine.cleanup_sprites g
    = GameEngine.set_groups
        (filter (fun s => s ∉ gone) (GameEngine.all_sprites g))
        (filter (fun s => s ∉ gone) (GameEngine.player_projectiles g))
        (filter (fun s => s ∉ gone) (GameEngine.enemies g)) g.
Proof.
  unfold GameEngine.cleanup_sprites. cbv zeta.
  rewrite (cleanup_loop_kills 100 (GameEngine.player_projectiles g) g).
  set (gone1 := filter _ (GameEngine.player_projectiles g)).
  rewrite cleanup_loop_kills. rewrite !kill_each_spec.
  cbn [GameEngine.set_groups GameEngine.all_sprites GameEngine.player_projectiles
         GameEngine.enemies].
  set (gone2 := filter _ (filter _ (GameEngine.enemies g))).
  assert (H1 : forall s, s ∈ gone1 <->
                 outside g s = true /\ s ∈ GameEngine.player_projectiles g).
  { intros s. unfold gone1. rewrite list_elem_of_filter. reflexivity. }
  assert (H2 : forall s, s ∈ gone2 <->
                 outside g s = true /\ (s ∉ gone1) /\ s ∈ GameEngine.enemies g).
  { intros s. unfold gone2. rewrite !list_elem_of_filter. reflexivity. }
  exists (gone1 ++ gone2). split.
  - intros s. rewrite elem_of_app, H1, H2.
    destruct (decide (s ∈ gone1)) as [Hin | Hnin].
    + apply H1 in Hin. tauto.
    + tauto.
  - assert (Hfilter : forall l : list ref,
              filter (fun s => s ∉ gone2) (filter (fun s => s ∉ gone1) l)
              = filter (fun s => s ∉ gone1 ++ gone2) l).
    { intros l. rewrite list_filter_filter. apply list_filter_iff. intros x.
      rewrite not_elem_of_app. tauto. }
    rewrite !Hfilter. reflexivity.
Qed.

(** X15.  [cleanup_sprites] removes exactly the projectiles and enemies
    whose rectangle is more than 100 pixels off the screen, from their
    group and from [all_sprites]; a sprite that is not that far out stays
    in every group it was in; nothing is added; the player object, the
    score and the sprite objects themselves are not touched. *)
Theorem cleanup_removes_far_sprites (g : GameEngine.t) :
  let g' := GameEngine.cleanup_sprites g in
  (forall s, s ∈ GameEngine.player_projectiles g' <->
     s ∈ GameEngine.player_projectiles g /\ ~ (outside g s = true)) /\
  (forall s, s ∈ GameEngine.enemies g' <->
     s ∈ GameEngine.enemies g /\ ~ (outside g s = true)) /\
  (forall s, s ∈ GameEngine.all_sprites g' <->
     s ∈ GameEngine.all_sprites g /\
     ~ (outside g s = true /\
        (s ∈ GameEngine.player_projectiles g \/ s ∈ GameEngine.enemies g))) /\
  same_sprites g g'.
Proof.
  intros g'. subst g'.
  destruct (cleanup_sprites_groups g) as (gone & Hgone & Heq). rewrite Heq.
  unfold same_sprites.
  cbn [GameEngine.set_groups GameEngine.all_sprites GameEngine.player_projectiles
         GameEngine.enemies].
  split; [| split; [| split; [| reflexivity]]].
  - intros s. rewrite list_elem_of_filter, Hgone. tauto.
  - intros s. rewrite list_elem_of_filter, Hgone. tauto.
  - intros s. rewrite list_elem_of_filter, Hgone. tauto.
Qed.

(** X16.  Where a new enemy appears.  With the draws in the ranges
    [spawn_enemy] asks [random] for, the enemy gets a fresh identity and is
    put into [enemies] and [all_sprites]; it is a square of the drawn size
    centred on the drawn x, it lies wholly above the top edge of the screen
    and between its left and right edges, it is not far enough out for
    [cleanup_sprites] to remove it, and its speed lies within the current
    speed range.  The projectiles are not touched. *)
Theorem spawned_enemy_starts_above_screen (rnd : Draw) (g : GameEngine.t) :
  draw_in_range rnd ->
  (GameEngine.current_enemy_speed_min g <= GameEngine.current_enemy_speed_max g)%Q ->
  let g' := GameEngine.spawn_enemy rnd g in
  exists e,
    GameEngine.objects g' !! GameEngine.next_id g = Some (SEnemy e) /\
    RObj (GameEngine.next_id g) ∈ GameEngine.enemies g' /\
    RObj (GameEngine.next_id g) ∈ GameEngine.all_sprites g' /\
    GameEngine.next_id g' = S (GameEngine.next_id g) /\
    GameEngine.player_projectiles g' = GameEngine.player_projectiles g /\
    Rect.w (Enemy.rect e) = draw_size rnd /\ Rect.h (Enemy.rect e) = draw_size rnd /\
    Rect.centerx (Enemy.rect e) = draw_x rnd /\
    Rect.bottom (Enemy.rect e) < 0 /\
    0 <= Rect.left (Enemy.rect e) /\ Rect.right (Enemy.rect e) <= Config.SCREEN_WIDTH /\
    outside g' (RObj (GameEngine.next_id g)) = false /\
    (GameEngine.current_enemy_speed_min g <= Enemy.speed e)%Q /\
    (Enemy.speed e <= GameEngine.current_enemy_speed_max g)%Q.
Proof.
  intros (Hx & Hu0 & Hu1 & Hsize) Hspeed g'. subst g'.
  unfold Config.ENEMY_SIZE_MAX, Config.ENEMY_SIZE_MIN, Config.SCREEN_WIDTH in *.
  unfold GameEngine.spawn_enemy, GameEngine.alloc. cbv zeta.
  cbn [GameEngine.set_groups GameEngine.set_heap GameEngine.objects GameEngine.enemies
         GameEngine.all_sprites GameEngine.player_projectiles GameEngine.next_id].
  eexists. split; [apply lookup_insert_eq |].
  split; [apply elem_of_Group_add; now left |].
  split; [apply elem_of_Group_add; now left |].
  split; [reflexivity |]. split; [reflexivity |].
  unfold outside, GameEngine.rect_of.
  cbn [GameEngine.set_groups GameEngine.set_heap GameEngine.objects].
  rewrite lookup_insert_eq.
  unfold Enemy.init, Rect.centerx, Rect.bottom, Rect.left, Rect.right, Rect.set_centerx,
    Rect.set_centery, Rect.set_x, Rect.set_y, Rect.of_size,
    collision_service.check_out_of_bounds, Rect.left, Rect.right, Rect.top, Rect.bottom,
    Config.ENEMY_SIZE_MAX, Config.SCREEN_WIDTH, Config.SCREEN_HEIGHT.
  cbn [Enemy.rect Enemy.speed Rect.x Rect.y Rect.w Rect.h].
  pose proof (Z.div_mod (draw_size rnd) 2 ltac:(lia)) as Hdiv.
  pose proof (Z.mod_pos_bound (draw_size rnd) 2 ltac:(lia)) as Hmod.
  split; [reflexivity |]. split; [reflexivity |]. split; [lia |]. split; [lia |].
  split; [lia |]. split; [lia |]. split.
  - rect_cases; try reflexivity; lia.
  - split; nra.
Qed.

Lemma spawned_enemy_starts_above_screen_sample :
  draw_in_range Sample.centre_draw /\
  exists e,
    GameEngine.objects (GameEngine.spawn_enemy Sample.centre_draw Sample.engine) !! 0%nat
    = Some (SEnemy e) /\
    Rect.bottom (Enemy.rect e) < 0.
Proof.
  assert (Hrange : draw_in_range Sample.centre_draw)
    by (repeat split; discriminate).
  split; [exact Hrange |].
  assert (Hspeed : (GameEngine.current_enemy_speed_min Sample.engine
                    <= GameEngine.current_enemy_speed_max Sample.engine)%Q)
    by discriminate.
  pose proof (spawned_enemy_starts_above_screen Sample.centre_draw Sample.engine
                Hrange Hspeed) as Hall.
  cbv zeta in Hall. destruct Hall as (e & Hobj & _ & _ & _ & _ & _ & _ & _ & Hbottom & _).
  exists e. split; [exact Hobj | exact Hbottom].
Defined.

(** ** Difficulty over several frames *)

Lemma update_difficulty_below (g : GameEngine.t) :
  GameEngine.get_score g < GameEngine.next_difficulty_score g ->
  GameEngine.update_difficulty g = g.
Proof.
  intros Hlt. unfold GameEngine.update_difficulty.
  destruct (Z.leb_spec (GameEngine.next_difficulty_score g)
              (ScoreService.get_current_score (GameEngine.score_service g)));
    [unfold GameEngine.get_score in Hlt; lia | reflexivity].
Qed.

Lemma update_difficulty_reached (g : GameEngine.t) :
  GameEngine.next_difficulty_score g <= GameEngine.get_score g ->
  GameEngine.next_difficulty_score (GameEngine.update_difficulty g)
  = GameEngine.next_difficulty_score g + Config.DIFFICULTY_INCREASE_INTERVAL /\
  GameEngine.get_score (GameEngine.update_difficulty g) = GameEngine.get_score g.
Proof.
  intros Hle. unfold GameEngine.update_difficulty.
  destruct (Z.leb_spec (GameEngine.next_difficulty_score g)
              (ScoreService.get_current_score (GameEngine.score_service g)));
    [split; reflexivity | unfold GameEngine.get_score in Hle; lia].
Qed.

Lemma escalate_below (n : nat) (g : GameEngine.t) :
  GameEngine.get_score g < GameEngine.next_difficulty_score g ->
  escalate n g = g.
Proof.
  intros Hlt. induction n as [| n IH]; [reflexivity |].
  cbn [escalate]. rewrite update_difficulty_below by exact Hlt. exact IH.
Qed.

Lemma escalate_catches_up (k : nat) :
  forall g : GameEngine.t,
    GameEngine.get_score g - GameEngine.next_difficulty_score g
    < Config.DIFFICULTY_INCREASE_INTERVAL * Z.of_nat k ->
    exists n, (n <= k)%nat /\
      GameEngine.get_score (escalate n g) < GameEngine.next_difficulty_score (escalate n g).
Proof.
  unfold Config.DIFFICULTY_INCREASE_INTERVAL.
  induction k as [| k IH]; intros g Hgap.
  - exists 0%nat. cbn [escalate]. split; [lia | lia].
  - destruct (Z.lt_ge_cases (GameEngine.get_score g) (GameEngine.next_difficulty_score g))
      as [Hlt | Hge].
    + exists 0%nat. cbn [escalate]. split; [lia | exact Hlt].
    + destruct (update_difficulty_reached g Hge) as [Hnext Hscore].
      unfold Config.DIFFICULTY_INCREASE_INTERVAL in Hnext.
      destruct (IH (GameEngine.update_difficulty g)) as (n & Hn & Hdone); [lia |].
      exists (S n). cbn [escalate]. split; [lia | exact Hdone].
Qed.

Lemma escalate_add (n m : nat) (g : GameEngine.t) :
  escalate (n + m) g = escalate m (escalate n g).
Proof.
  revert g. induction n as [| n IH]; intros g; [reflexivity |].
  cbn [Nat.add escalate]. apply IH.
Qed.

(** X17.  [update_difficulty] over successive frames with the score
    standing still.  While the threshold has not passed the score, each
    call raises it by one interval, so [n] calls raise it by [n] intervals;
    once the threshold is above the score, further calls change nothing;
    and that point is always reached after finitely many calls: a jump of
    the score across several thresholds is made up for one escalation per
    frame. *)
Theorem difficulty_catches_up_one_step_per_frame (g : GameEngine.t) :
  (forall n : nat,
     GameEngine.next_difficulty_score g
     + Config.DIFFICULTY_INCREASE_INTERVAL * (Z.of_nat n - 1) <= GameEngine.get_score g ->
     GameEngine.next_difficulty_score (escalate n g)
     = GameEngine.next_difficulty_score g + Config.DIFFICULTY_INCREASE_INTERVAL * Z.of_nat n) /\
  (GameEngine.get_score g < GameEngine.next_difficulty_score g ->
   forall n, escalate n g = g) /\
  (exists n : nat,
     GameEngine.get_score (escalate n g) < GameEngine.next_difficulty_score (escalate n g) /\
     forall m : nat, (n <= m)%nat -> escalate m g = escalate n g).
Proof.
  split; [| split].
  - intros n. revert g. unfold Config.DIFFICULTY_INCREASE_INTERVAL.
    induction n as [| n IH]; intros g Hle; [cbn [escalate]; lia |].
    cbn [escalate].
    destruct (update_difficulty_reached g) as [Hnext Hscore]; [lia |].
    unfold Config.DIFFICULTY_INCREASE_INTERVAL in Hnext.
    rewrite IH; [lia |]. rewrite Hnext, Hscore. lia.
  - intros Hlt n. apply escalate_below, Hlt.
  - destruct (escalate_catches_up
                (Z.to_nat (GameEngine.get_score g - GameEngine.next_difficulty_score g + 1)) g)
      as (n & _ & Hdone).
    { unfold Config.DIFFICULTY_INCREASE_INTERVAL. lia. }
    exists n. split; [exact Hdone |].
    intros m Hm. replace m with (n + (m - n))%nat by lia.
    rewrite escalate_add. apply escalate_below, Hdone.
Qed.

Lemma difficulty_catches_up_one_step_per_frame_sample :
  GameEngine.next_difficulty_score (escalate 2 Sample.engine_250) = 300.
Proof.
  destruct (difficulty_catches_up_one_step_per_frame Sample.engine_250) as [Hsteps _].
  apply (Hsteps 2%nat). vm_compute. discriminate.
Defined.

(** ** The two parts of [check_collisions] together *)

Lemma check_collisions_player_no_hit (g : GameEngine.t) :
  (forall e, e ∈ GameEngine.enemies g -> overlap g RPlayer e = false) ->
  GameEngine.check_collisions_player g = g.
Proof.
  intros Hfree.
  destruct (Qlt_le_dec 0 (GameEngine.player_invulnerable_timer g)) as [Hpos | Hle].
  - apply check_collisions_player_shielded, Hpos.
  - rewrite (check_collisions_player_open g Hle).
    destruct (filter _ (GameEngine.enemies g)) as [| e c] eqn:Hc; [reflexivity |].
    assert (Hin : e ∈ filter (fun s => overlap g RPlayer s = true) (GameEngine.enemies g))
      by (rewrite Hc; left).
    apply list_elem_of_filter in Hin as [Hov He]. rewrite (Hfree e He) in Hov. discriminate.
Qed.

(** X18.  Projectiles are resolved before the player.  If every enemy that
    overlaps the player is also overlapped by a projectile, [check_collisions]
    destroys those enemies first and the player is not hurt: lives, the
    invulnerability timer and the player object are as before, even with
    the timer at zero.  (The high score must be a number for the scoring
    not to fail.) *)
Theorem shot_enemy_does_not_hurt (g : GameEngine.t) :
  is_Some (Py.num (ScoreService.high_score (GameEngine.score_service g))) ->
  (forall e, e ∈ GameEngine.enemies g -> overlap g RPlayer e = true ->
     exists p, p ∈ GameEngine.player_projectiles g /\ overlap g p e = true) ->
  exists g',
    GameEngine.check_collisions g = Py.Ok g' /\
    GameEngine.player g' = GameEngine.player g /\
    GameEngine.player_invulnerable_timer g' = GameEngine.player_invulnerable_timer g /\
    (forall e, e ∈ GameEngine.enemies g -> overlap g RPlayer e = true ->
       e ∉ GameEngine.enemies g').
Proof.
  intros Hnum Hshot.
  destruct (check_collisions_projectiles_shape g Hnum) as (hits & g1 & s' & Hrun & Hcheck).
  pose proof (groupcollide_loop_groups _ _ _ _ Hrun) as Hg1.
  pose proof (groupcollide_loop_complete _ _ _ _ Hrun) as Hcomplete.
  assert (Hen : forall e, e ∈ GameEngine.enemies (GameEngine.set_score_service s' g1) ->
                  e ∈ GameEngine.enemies g /\ (e ∉ killed hits)).
  { intros e. rewrite Hg1. cbn [GameEngine.set_score_service GameEngine.set_groups
      GameEngine.enemies]. rewrite list_elem_of_filter. tauto. }
  assert (Hov : forall e, overlap (GameEngine.set_score_service s' g1) RPlayer e
                          = overlap g RPlayer e)
    by (intros e; rewrite Hg1; reflexivity).
  assert (Hsafe : GameEngine.check_collisions_player (GameEngine.set_score_service s' g1)
                  = GameEngine.set_score_service s' g1).
  { apply check_collisions_player_no_hit. intros e He.
    destruct (Hen e He) as [Hin Hnk]. rewrite Hov.
    destruct (overlap g RPlayer e) eqn:Hhit; [| reflexivity].
    destruct (Hshot e Hin Hhit) as (p & Hp & Hpe).
    exfalso. apply Hnk. exact (Hcomplete p e Hp Hin Hpe). }
  exists (GameEngine.set_score_service s' g1).
  split; [unfold GameEngine.check_collisions; rewrite Hcheck; cbn [Py.bind];
          now rewrite Hsafe |].
  split; [rewrite Hg1; reflexivity |]. split; [rewrite Hg1; reflexivity |].
  intros e He Hhit Hin. destruct (Hen e Hin) as [_ Hnk].
  destruct (Hshot e He Hhit) as (p & Hp & Hpe).
  apply Hnk. exact (Hcomplete p e Hp He Hpe).
Qed.

Lemma shot_enemy_does_not_hurt_sample :
  overlap Sample.engine_shot_in_time RPlayer (RObj 1) = true /\
  exists g',
    GameEngine.check_collisions Sample.engine_shot_in_time = Py.Ok g' /\
    GameEngine.player g' = GameEngine.player Sample.engine_shot_in_time.
Proof.
  split; [reflexivity |].
  destruct (shot_enemy_does_not_hurt Sample.engine_shot_in_time) as (g' & Hrun & Hp & _).
  - eexists. reflexivity.
  - intros e He _. cbn in He. apply list_elem_of_singleton in He. subst e.
    exists (RObj 0). split; [left | reflexivity].
  - exists g'. split; [exact Hrun | exact Hp].
Defined.

(** X19.  One collision check costs at most one life, and checking again
    costs nothing: the second part of [check_collisions] lowers [lives] by
    one or leaves them, and applied to its own result it changes nothing,
    because a hit starts the invulnerability window. *)
Theorem player_check_is_idempotent (g : GameEngine.t) :
  let g' := GameEngine.check_collisions_player g in
  GameEngine.check_collisions_player g' = g' /\
  (Player.lives (GameEngine.player g') = Player.lives (GameEngine.player g) \/
   Player.lives (GameEngine.player g') = Player.lives (GameEngine.player g) - 1) /\
  GameEngine.get_score g' = GameEngine.get_score g.
Proof.
  intros g'. subst g'.
  destruct (Qlt_le_dec 0 (GameEngine.player_invulnerable_timer g)) as [Hpos | Hle].
  - rewrite !(check_collisions_player_shielded g Hpos). auto.
  - rewrite (check_collisions_player_open g Hle).
    destruct (filter _ (GameEngine.enemies g)) as [| e c] eqn:Hc.
    + split; [| auto].
      rewrite (check_collisions_player_open g Hle), Hc. reflexivity.
    + rewrite kill_each_spec. split; [| split; [right; reflexivity | reflexivity]].
      apply check_collisions_player_shielded. reflexivity.
Qed.

(** ** Enemies and projectiles in flight *)

Lemma Qtrunc_add_nonneg (y : Z) (d : Q) :
  (0 <= d)%Q -> y <= Py.Qtrunc (inject_Z y + d).
Proof.
  destruct d as [a b]. unfold Qle, Py.Qtrunc. cbn. intros Ha.
  rewrite <- (Z.quot_mul y (Z.pos b)) at 1 by lia.
  apply Z.quot_le_mono; lia.
Qed.

Lemma Qtrunc_add_nonpos (y : Z) (d : Q) :
  (d <= 0)%Q -> Py.Qtrunc (inject_Z y + d) <= y.
Proof.
  destruct d as [a b]. unfold Qle, Py.Qtrunc. cbn. intros Ha.
  rewrite <- (Z.quot_mul y (Z.pos b)) at 2 by lia.
  apply Z.quot_le_mono; lia.
Qed.

(** X20.  An enemy falls straight down.  Whatever size the rotated image
    has, [Enemy.update] keeps the horizontal centre of the rectangle, the
    speed, the size and the rotation speed; the rotation advances by the
    rotation speed; the rectangle takes the size of the rotated image; and
    for a step [speed * delta_time * 60] that is not negative the vertical
    centre does not move up. *)
Theorem enemy_falls_straight_down `{Transform} (dt : Q) (e : Enemy.t) :
  let e' := Enemy.update dt e in
  Rect.centerx (Enemy.rect e') = Rect.centerx (Enemy.rect e) /\
  Enemy.speed e' = Enemy.speed e /\
  Enemy.size e' = Enemy.size e /\
  Enemy.rotation_speed e' = Enemy.rotation_speed e /\
  Enemy.rotation e' = (Enemy.rotation e + Enemy.rotation_speed e)%Q /\
  (Rect.w (Enemy.rect e'), Rect.h (Enemy.rect e'))
  = rotate_size (Enemy.size e) (Enemy.rotation e') /\
  ((0 <= Enemy.speed e * dt * 60)%Q ->
   Rect.centery (Enemy.rect e) <= Rect.centery (Enemy.rect e')).
Proof.
  unfold Enemy.update. cbv zeta.
  destruct (rotate_size (Enemy.size e) (Enemy.rotation e + Enemy.rotation_speed e))
    as [w' h'] eqn:Hsize.
  unfold Rect.centerx, Rect.centery, Rect.add_y, Rect.set_centerx, Rect.set_centery,
    Rect.set_x, Rect.set_y, Rect.of_size.
  cbn [Enemy.rect Enemy.speed Enemy.size Enemy.rotation Enemy.rotation_speed
         Rect.x Rect.y Rect.w Rect.h].
  rewrite Hsize.
  split; [lia |]. repeat (split; [reflexivity |]).
  intros Hstep. pose proof (Qtrunc_add_nonneg (Rect.y (Enemy.rect e)) _ Hstep). lia.
Qed.

Lemma fly_keeps_course (dts : list Q) :
  forall p : Projectile.t,
    (Projectile.velocity_x p == 0)%Q ->
    (Projectile.velocity_y p <= 0)%Q ->
    Forall (fun dt => (0 <= dt)%Q) dts ->
    Rect.x (Projectile.rect (fly dts p)) = Rect.x (Projectile.rect p) /\
    Rect.y (Projectile.rect (fly dts p)) <= Rect.y (Projectile.rect p) /\
    Rect.w (Projectile.rect (fly dts p)) = Rect.w (Projectile.rect p) /\
    Rect.h (Projectile.rect (fly dts p)) = Rect.h (Projectile.rect p) /\
    Projectile.velocity_x (fly dts p) = Projectile.velocity_x p /\
    Projectile.velocity_y (fly dts p) = Projectile.velocity_y p.
Proof.
  induction dts as [| dt rest IH]; intros p Hvx Hvy Hpos.
  - cbn [fly]. repeat split; lia.
  - apply Forall_cons in Hpos as [Hdt Hrest]. cbn [fly].
    destruct (IH (Projectile.update dt p)) as (Hx & Hy & Hw & Hh & Hvx' & Hvy');
      [exact Hvx | exact Hvy | exact Hrest |].
    rewrite Hx, Hw, Hh, Hvx', Hvy'.
    unfold Projectile.update, Rect.add_x, Rect.add_y, Rect.set_x, Rect.set_y in *.
    cbn [Projectile.rect Projectile.velocity_x Projectile.velocity_y
           Rect.x Rect.y Rect.w Rect.h] in *.
    assert (Hdx0 : (0 <= Projectile.velocity_x p * dt * 60)%Q) by (rewrite Hvx; lra).
    assert (Hdx1 : (Projectile.velocity_x p * dt * 60 <= 0)%Q) by (rewrite Hvx; lra).
    assert (Hdy : (Projectile.velocity_y p * dt * 60 <= 0)%Q) by nra.
    pose proof (Qtrunc_add_nonneg (Rect.x (Projectile.rect p)) _ Hdx0).
    pose proof (Qtrunc_add_nonpos (Rect.x (Projectile.rect p)) _ Hdx1).
    pose proof (Qtrunc_add_nonpos (Rect.y (Projectile.rect p)) _ Hdy).
    repeat split; try reflexivity; lia.
Qed.

(** X21.  A projectile that flies straight up keeps doing so: with no
    horizontal velocity and a vertical velocity that is not positive, over
    frames of non-negative duration its rectangle keeps its column and its
    size and never moves down, and its velocity stays what it was. *)
Theorem projectile_flies_straight_up (dts : list Q) (p : Projectile.t) :
  (Projectile.velocity_x p == 0)%Q ->
  (Projectile.velocity_y p <= 0)%Q ->
  Forall (fun dt => (0 <= dt)%Q) dts ->
  Rect.x (Projectile.rect (fly dts p)) = Rect.x (Projectile.rect p) /\
  Rect.y (Projectile.rect (fly dts p)) <= Rect.y (Projectile.rect p) /\
  Rect.w (Projectile.rect (fly dts p)) = Rect.w (Projectile.rect p) /\
  Rect.h (Projectile.rect (fly dts p)) = Rect.h (Projectile.rect p) /\
  Projectile.velocity_x (fly dts p) = Projectile.velocity_x p /\
  Projectile.velocity_y (fly dts p) = Projectile.velocity_y p.
Proof. apply fly_keeps_course. Qed.

Lemma projectile_flies_straight_up_sample :
  Rect.x (Projectile.rect (fly Sample.four_frames Sample.bullet))
  = Rect.x (Projectile.rect Sample.bullet).
Proof.
  refine (proj1 (projectile_flies_straight_up Sample.four_frames Sample.bullet _ _ _)).
  - reflexivity.
  - discriminate.
  - repeat constructor; discriminate.
Defined.

(** ** Firing, spawning and group queries in [update] *)

(** X22.  The shooting step of [update].  Without the shoot key, or while
    the cooldown runs, the engine is not changed.  With the key held and
    the cooldown over, exactly one projectile object is created: it gets
    the next identity, joins [player_projectiles] and [all_sprites], is the
    projectile [Player.shoot] returns, and the player is left unable to
    shoot; no other reference enters or leaves [player_projectiles], and the
    enemies are as before. *)
Theorem update_shoot_adds_one_projectile (input_state : InputState) (g : GameEngine.t) :
  (shoot input_state = false \/ Player.can_shoot (GameEngine.player g) = false ->
   GameEngine.update_shoot input_state g = g) /\
  (shoot input_state = true -> Player.can_shoot (GameEngine.player g) = true ->
   let g' := GameEngine.update_shoot input_state g in
   exists pr,
     Player.shoot (GameEngine.player g) = (Some pr, GameEngine.player g') /\
     GameEngine.objects g' !! GameEngine.next_id g = Some (SProjectile pr) /\
     GameEngine.next_id g' = S (GameEngine.next_id g) /\
     RObj (GameEngine.next_id g) ∈ GameEngine.all_sprites g' /\
     (forall r, r ∈ GameEngine.player_projectiles g' <->
        r = RObj (GameEngine.next_id g) \/ r ∈ GameEngine.player_projectiles g) /\
     Player.can_shoot (GameEngine.player g') = false /\
     GameEngine.enemies g' = GameEngine.enemies g).
Proof.
  unfold GameEngine.update_shoot. split.
  - intros [Hkey | Hcan]; [rewrite Hkey; reflexivity |].
    rewrite Hcan, andb_false_r. reflexivity.
  - intros Hkey Hcan. rewrite Hkey, Hcan. cbn [andb]. cbv zeta.
    unfold Player.shoot. rewrite Hcan. cbn [negb].
    unfold GameEngine.alloc.
    cbn [GameEngine.set_groups GameEngine.set_heap GameEngine.set_player GameEngine.objects
           GameEngine.next_id GameEngine.all_sprites GameEngine.player_projectiles
           GameEngine.enemies GameEngine.player].
    eexists. split; [reflexivity |]. split; [apply lookup_insert_eq |].
    split; [reflexivity |]. split; [apply elem_of_Group_add; now left |].
    split; [intros r; apply elem_of_Group_add |]. split; reflexivity.
Qed.

Lemma update_shoot_adds_one_projectile_sample :
  exists pr,
    GameEngine.objects (GameEngine.update_shoot Sample.space_held Sample.engine) !! 0%nat
    = Some (SProjectile pr) /\
    RObj 0 ∈ GameEngine.all_sprites (GameEngine.update_shoot Sample.space_held Sample.engine).
Proof.
  destruct (update_shoot_adds_one_projectile Sample.space_held Sample.engine) as [_ Hfire].
  destruct (Hfire eq_refl eq_refl) as (pr & _ & Hobj & _ & Hall & _).
  exists pr. split; [exact Hobj | exact Hall].
Defined.

(** X23.  The spawn step of [update], for a positive spawn interval.  The
    step leaves the spawn timer below the interval.  If the accumulated
    time stays below the interval, the timer takes it up and no group and
    no sprite object changes; otherwise the timer starts again at 0 and
    one enemy enters [enemies].  The interval itself is not changed. *)
Theorem spawn_timer_stays_below_interval (rnd : Draw) (g : GameEngine.t) :
  (0 < GameEngine.current_spawn_rate g)%Q ->
  let elapsed := (GameEngine.enemy_spawn_timer g + GameEngine.delta_time g)%Q in
  let g' := GameEngine.update_spawn rnd g in
  (GameEngine.enemy_spawn_timer g' < GameEngine.current_spawn_rate g')%Q /\
  GameEngine.current_spawn_rate g' = GameEngine.current_spawn_rate g /\
  ((elapsed < GameEngine.current_spawn_rate g)%Q ->
   g' = GameEngine.set_enemy_spawn_timer elapsed g) /\
  ((GameEngine.current_spawn_rate g <= elapsed)%Q ->
   GameEngine.enemy_spawn_timer g' = 0%Q /\
   GameEngine.enemies g' = Group_add (RObj (GameEngine.next_id g)) (GameEngine.enemies g)).
Proof.
  intros Hrate elapsed g'. subst elapsed g'.
  destruct (Qlt_le_dec (GameEngine.enemy_spawn_timer g + GameEngine.delta_time g)
              (GameEngine.current_spawn_rate g)) as [Hearly | Hdue].
  - assert (Hno : GameEngine.update_spawn rnd g
                  = GameEngine.set_enemy_spawn_timer
                      (GameEngine.enemy_spawn_timer g + GameEngine.delta_time g)%Q g).
    { unfold GameEngine.update_spawn.
      cbn [GameEngine.set_enemy_spawn_timer GameEngine.current_spawn_rate
             GameEngine.enemy_spawn_timer GameEngine.delta_time].
      destruct (Qle_bool _ _) eqn:E; [| reflexivity].
      apply Qle_bool_iff in E. lra. }
    rewrite Hno.
    cbn [GameEngine.set_enemy_spawn_timer GameEngine.current_spawn_rate
           GameEngine.enemy_spawn_timer].
    split; [exact Hearly |]. split; [reflexivity |]. split; [reflexivity |].
    intros Habs. lra.
  - rewrite (update_spawn_due rnd g Hdue).
    split; [exact Hrate |]. split; [reflexivity |]. split; [intros Habs; lra |].
    intros _. split; reflexivity.
Qed.

Lemma spawn_timer_stays_below_interval_sample :
  (GameEngine.enemy_spawn_timer
     (GameEngine.update_spawn Sample.centre_draw Sample.engine_spawn_due)
   < GameEngine.current_spawn_rate
       (GameEngine.update_spawn Sample.centre_draw Sample.engine_spawn_due))%Q.
Proof.
  assert (Hrate : (0 < GameEngine.current_spawn_rate Sample.engine_spawn_due)%Q)
    by reflexivity.
  pose proof (spawn_timer_stays_below_interval Sample.centre_draw Sample.engine_spawn_due
                Hrate) as Hall.
  cbv zeta in Hall. destruct Hall as [Hbelow _]. exact Hbelow.
Defined.

(** X24.  [check_collision_with_group] only looks: the engine is returned
    as it was, and the result lists, in the order of the group, exactly the
    members whose rectangle collides with the given one; for an empty
    group it is empty. *)
Theorem check_collision_with_group_only_looks
    (rect : Rect.t) (sprite_group : GameEngine.t -> list ref) (g : GameEngine.t) :
  snd (GameEngine.check_collision_with_group rect sprite_group g) = g /\
  fst (GameEngine.check_collision_with_group rect sprite_group g)
  = filter (fun s => GameEngine.collides g rect s = true) (sprite_group g) /\
  (forall s, s ∈ fst (GameEngine.check_collision_with_group rect sprite_group g) <->
     s ∈ sprite_group g /\ GameEngine.collides g rect s = true) /\
  (sprite_group g = [] ->
   fst (GameEngine.check_collision_with_group rect sprite_group g) = []).
Proof.
  unfold GameEngine.check_collision_with_group, GameEngine.spritecollide.
  rewrite spritecollide_loop_keep. cbn [fst snd].
  split; [reflexivity |]. split; [reflexivity |]. split.
  - intros s. rewrite list_elem_of_filter. tauto.
  - intros ->. reflexivity.
Qed.

(** ** main.py: the state machine and the first frame of a game *)

(** X25.  One event, at most one transition.  Handling an event either
    leaves the game state and the engine alone, or takes one of four
    steps: MENU to PLAYING on SPACE or RETURN, with the engine reset;
    PLAYING to PAUSED and PAUSED to PLAYING on ESCAPE; GAME_OVER to MENU on
    SPACE or RETURN (and not on into PLAYING), the last three with the
    engine untouched.  Only QUIT clears [running], and pressing ESCAPE
    twice leaves everything as it was. *)
Theorem one_event_one_transition (event : Main.Event) (m : Main.t) :
  let m' := Main.handle_event event m in
  ((Main.game_state m' = Main.game_state m /\ Main.game_engine m' = Main.game_engine m) \/
   (Main.game_state m = Main.MENU /\ Main.game_state m' = Main.PLAYING /\
    Main.game_engine m' = GameEngine.reset (Main.game_engine m) /\
    exists key, event = Main.KEYDOWN key /\ Main.confirms key = true) \/
   (Main.game_state m = Main.PLAYING /\ Main.game_state m' = Main.PAUSED /\
    Main.game_engine m' = Main.game_engine m /\ event = Main.KEYDOWN Main.K_ESCAPE) \/
   (Main.game_state m = Main.PAUSED /\ Main.game_state m' = Main.PLAYING /\
    Main.game_engine m' = Main.game_engine m /\ event = Main.KEYDOWN Main.K_ESCAPE) \/
   (Main.game_state m = Main.GAME_OVER /\ Main.game_state m' = Main.MENU /\
    Main.game_engine m' = Main.game_engine m /\
    exists key, event = Main.KEYDOWN key /\ Main.confirms key = true)) /\
  Main.running m'
  = (Main.running m && match event with Main.QUIT => false | _ => true end) /\
  Main.handle_event (Main.KEYDOWN Main.K_ESCAPE)
    (Main.handle_event (Main.KEYDOWN Main.K_ESCAPE) m) = m.
Proof.
  destruct m as [state running engine].
  split; [| split].
  - destruct event as [| key |]; [left; split; reflexivity | | left; split; reflexivity].
    destruct key, state; cbn;
      first [ left; split; reflexivity
            | right; left; repeat split; eexists; split; reflexivity
            | right; right; left; repeat split; reflexivity
            | right; right; right; left; repeat split; reflexivity
            | right; right; right; right; repeat split; eexists; split; reflexivity ].
  - destruct event as [| key |]; cbn; [now rewrite andb_false_r | | now rewrite andb_true_r].
    destruct key, state; cbn; now rewrite andb_true_r.
  - destruct state; reflexivity.
Qed.

Lemma handle_event_engine (event : Main.Event) (m : Main.t) :
  Main.game_engine (Main.handle_event event m) = Main.game_engine m \/
  Main.game_engine (Main.handle_event event m) = GameEngine.reset (Main.game_engine m).
Proof.
  destruct m as [state running engine].
  destruct event as [| key |]; [left; reflexivity | | left; reflexivity].
  destruct key, state; cbn; auto.
Qed.

Lemma handle_events_engine (events : list Main.Event) :
  forall m : Main.t,
    Main.game_engine (Main.handle_events events m) = Main.game_engine m \/
    Main.game_engine (Main.handle_events events m) = GameEngine.reset (Main.game_engine m).
Proof.
  induction events as [| event rest IH]; intros m; [left; reflexivity |].
  cbn [Main.handle_events].
  destruct (IH (Main.handle_event event m)) as [-> | ->];
    destruct (handle_event_engine event m) as [-> | ->]; auto.
Qed.

(** Wherever the game is being played, the engine holds the player in
    [all_sprites]: the only way into PLAYING from the menu or from the
    game-over screen is the reset at the menu. *)
Lemma handle_event_player_registered (event : Main.Event) (m : Main.t) :
  RPlayer ∈ GameEngine.all_sprites (Main.game_engine m) \/
  Main.game_state m = Main.MENU \/ Main.game_state m = Main.GAME_OVER ->
  RPlayer ∈ GameEngine.all_sprites (Main.game_engine (Main.handle_event event m)) \/
  Main.game_state (Main.handle_event event m) = Main.MENU \/
  Main.game_state (Main.handle_event event m) = Main.GAME_OVER.
Proof.
  destruct m as [state running engine]. cbn [Main.game_engine Main.game_state].
  intros Hready.
  destruct event as [| key |]; [exact Hready | | exact Hready].
  destruct key, state; cbn [Main.handle_event Main.confirms Main.game_state
                             Main.game_engine Main.running];
    first [ exact Hready
          | left; apply reset_keeps_player_in_all_sprites
          | right; left; reflexivity
          | destruct Hready as [Hin | [Hs | Hs]];
            [left; exact Hin | discriminate Hs | discriminate Hs] ].
Qed.

Lemma handle_events_player_registered (events : list Main.Event) :
  forall m : Main.t,
    RPlayer ∈ GameEngine.all_sprites (Main.game_engine m) \/
    Main.game_state m = Main.MENU \/ Main.game_state m = Main.GAME_OVER ->
    RPlayer ∈ GameEngine.all_sprites (Main.game_engine (Main.handle_events events m)) \/
    Main.game_state (Main.handle_events events m) = Main.MENU \/
    Main.game_state (Main.handle_events events m) = Main.GAME_OVER.
Proof.
  induction events as [| event rest IH]; intros m Hready; [exact Hready |].
  cbn [Main.handle_events]. apply IH, handle_event_player_registered, Hready.
Qed.

(** X26.  Starting a game ends the program.  Whatever the events of a
    frame, they leave the engine as it was or reset.  If the game is being
    played when they are handled (and the engine held the player in
    [all_sprites], or the frame began at the menu or at the game-over
    screen, from where only the reset at the menu leads into PLAYING), the
    [update] of that frame raises the [TypeError] of [Player.update] called
    through [all_sprites], and the save file is not touched.  So does the
    frame in which SPACE or RETURN is pressed at the menu.  A frame that is
    not in PLAYING after its events returns normally with the state its
    events left: [update] is not called and the save file is not touched. *)
Theorem starting_a_game_raises `{Transform}
    (events : list Main.Event) (input_state : InputState) (tick : Z) (rnd : Draw)
    (m : Main.t) (w : World.t) :
  let m' := Main.handle_events events m in
  (Main.game_engine m' = Main.game_engine m \/
   Main.game_engine m' = GameEngine.reset (Main.game_engine m)) /\
  (RPlayer ∈ GameEngine.all_sprites (Main.game_engine m) \/
   Main.game_state m = Main.MENU \/ Main.game_state m = Main.GAME_OVER ->
   Main.game_state m' = Main.PLAYING ->
   Main.frame events input_state tick rnd m w = (Py.Err missing_delta_time, w)) /\
  (forall key,
     Main.game_state m = Main.MENU -> Main.confirms key = true ->
     Main.handle_events [Main.KEYDOWN key] m
     = Main.mk Main.PLAYING (Main.running m) (GameEngine.reset (Main.game_engine m)) /\
     Main.frame [Main.KEYDOWN key] input_state tick rnd m w
     = (Py.Err missing_delta_time, w)) /\
  (Main.game_state m' <> Main.PLAYING ->
   Main.frame events input_state tick rnd m w = (Py.Ok m', w)).
Proof.
  intros m'.
  assert (Hraise : forall evs,
            RPlayer ∈ GameEngine.all_sprites (Main.game_engine (Main.handle_events evs m)) ->
            Main.game_state (Main.handle_events evs m) = Main.PLAYING ->
            Main.frame evs input_state tick rnd m w = (Py.Err missing_delta_time, w)).
  { intros evs Hin Hplay. unfold Main.frame. rewrite Hplay.
    unfold World.bind, World.lift, GameEngine.update.
    cbn [GameEngine.call_update Py.bind].
    rewrite Group_update_raises; [reflexivity |].
    apply update_shoot_all_sprites. exact Hin. }
  split; [apply handle_events_engine |]. split; [| split].
  - intros Hready Hplay. apply Hraise; [| exact Hplay].
    destruct (handle_events_player_registered events m Hready) as [Hin | [Hs | Hs]];
      [exact Hin | |]; fold m' in Hs; congruence.
  - intros key Hmenu Hkey.
    assert (Hstart : Main.handle_events [Main.KEYDOWN key] m
                     = Main.mk Main.PLAYING (Main.running m)
                         (GameEngine.reset (Main.game_engine m))).
    { destruct m as [state running engine]. cbn in Hmenu. subst state.
      destruct key; [discriminate | reflexivity | reflexivity | discriminate]. }
    split; [exact Hstart |].
    apply Hraise; rewrite Hstart; [apply reset_keeps_player_in_all_sprites | reflexivity].
  - intros Hstate. unfold Main.frame. fold m'.
    destruct (Main.game_state m'); [| congruence | |]; reflexivity.
Qed.

(** At the menu: SPACE starts the game and the frame raises; so does a
    frame in which the game is started, paused and resumed. *)
Lemma starting_a_game_raises_sample :
  Main.game_state Sample.at_menu = Main.MENU /\
  Main.game_state
    (Main.handle_events
       [Main.KEYDOWN Main.K_SPACE; Main.KEYDOWN Main.K_ESCAPE; Main.KEYDOWN Main.K_ESCAPE]
       Sample.at_menu) = Main.PLAYING /\
  @Main.frame Sample.no_rotation
    [Main.KEYDOWN Main.K_SPACE; Main.KEYDOWN Main.K_ESCAPE; Main.KEYDOWN Main.K_ESCAPE]
    Sample.no_keys 16 Sample.centre_draw Sample.at_menu Sample.first_run
  = (Py.Err missing_delta_time, Sample.first_run) /\
  @Main.frame Sample.no_rotation [Main.KEYDOWN Main.K_SPACE] Sample.no_keys 16
    Sample.centre_draw Sample.at_menu Sample.first_run
  = (Py.Err missing_delta_time, Sample.first_run).
Proof.
  split; [reflexivity |]. split; [reflexivity |].
  pose proof (@starting_a_game_raises Sample.no_rotation
                [Main.KEYDOWN Main.K_SPACE; Main.KEYDOWN Main.K_ESCAPE;
                 Main.KEYDOWN Main.K_ESCAPE]
                Sample.no_keys 16 Sample.centre_draw Sample.at_menu Sample.first_run)
    as Hall.
  cbv zeta in Hall. destruct Hall as (_ & Hplay & Hstart & _).
  split.
  - apply Hplay; [right; left; reflexivity | reflexivity].
  - apply (Hstart Main.K_SPACE); reflexivity.
Defined.

(** ** Scoring inside [check_collisions] *)

Lemma award_enemies_raises (e : ref) (rest : list ref) (s : ScoreService.t) :
  Py.num (ScoreService.high_score s) = None ->
  exists msg, GameEngine.award_enemies (e :: rest) s = Py.Err (Py.TypeError msg).
Proof.
  intros Hnum. cbn [GameEngine.award_enemies].
  unfold ScoreService.add_points, Py.int_gt. rewrite Hnum. eexists. reflexivity.
Qed.

(** X27.  [check_collisions] with a high score that is not a number (see
    X11).  As long as no projectile overlaps an enemy, the first part of
    [check_collisions] awards nothing and returns the engine unchanged; as
    soon as one does, awarding the points raises a [TypeError] and
    [check_collisions] with it. *)
Theorem hit_with_bad_high_score_raises (g : GameEngine.t) :
  Py.num (ScoreService.high_score (GameEngine.score_service g)) = None ->
  ((forall p e, p ∈ GameEngine.player_projectiles g -> e ∈ GameEngine.enemies g ->
      overlap g p e = false) ->
   GameEngine.check_collisions_projectiles g = Py.Ok g) /\
  (forall p e, p ∈ GameEngine.player_projectiles g -> e ∈ GameEngine.enemies g ->
     overlap g p e = true ->
     exists msg, GameEngine.check_collisions g = Py.Err (Py.TypeError msg)).
Proof.
  intros Hnum.
  unfold GameEngine.check_collisions, GameEngine.check_collisions_projectiles,
    GameEngine.check_group_collision, GameEngine.groupcollide.
  destruct (GameEngine.groupcollide_loop GameEngine.enemies true true
              (GameEngine.player_projectiles g) g) as [hits g1] eqn:Hrun.
  pose proof (groupcollide_loop_groups _ _ _ _ Hrun) as Hg1.
  pose proof (groupcollide_loop_sound _ _ _ _ Hrun) as Hsound.
  pose proof (groupcollide_loop_complete _ _ _ _ Hrun) as Hcomplete.
  assert (Hscore : GameEngine.score_service g1 = GameEngine.score_service g)
    by (rewrite Hg1; reflexivity).
  split.
  - intros Hfree.
    assert (Hnone : hits = []).
    { destruct hits as [| [a c] rest]; [reflexivity |]. exfalso.
      destruct (Hsound a c) as (Ha & Hne & Hc); [left |].
      destruct c as [| e c]; [congruence |].
      destruct (Hc e) as [He Hov]; [left |].
      rewrite (Hfree a e Ha He) in Hov. discriminate. }
    subst hits. cbn [GameEngine.award Py.bind]. f_equal.
    rewrite Hg1. cbn [killed]. rewrite !filter_not_elem_of_nil.
    destruct g. reflexivity.
  - intros p e Hp He Hov.
    pose proof (Hcomplete p e Hp He Hov) as Hk.
    destruct hits as [| [a c] rest]; [apply elem_of_nil in Hk; contradiction |].
    destruct (Hsound a c) as (_ & Hne & _); [left |].
    destruct c as [| e0 c]; [congruence |].
    cbn [GameEngine.award]. rewrite Hscore.
    destruct (award_enemies_raises e0 c (GameEngine.score_service g) Hnum) as [msg Hmsg].
    rewrite Hmsg. exists msg. reflexivity.
Qed.

Lemma hit_with_bad_high_score_raises_sample :
  exists msg,
    GameEngine.check_collisions Sample.engine_bad_high_score = Py.Err (Py.TypeError msg).
Proof.
  destruct (hit_with_bad_high_score_raises Sample.engine_bad_high_score eq_refl)
    as [_ Hraise].
  apply (Hraise (RObj 0) (RObj 2)); [left | left | reflexivity].
Defined.

(** X28.  [check_collisions] with a numeric high score returns normally;
    the score does not go down and grows by a whole number of
    [ENEMY_POINTS]; the player loses one life or none; no enemy and no
    projectile is added. *)
Theorem check_collisions_bounds (g : GameEngine.t) :
  is_Some (Py.num (ScoreService.high_score (GameEngine.score_service g))) ->
  exists (g' : GameEngine.t) (kills : nat),
    GameEngine.check_collisions g = Py.Ok g' /\
    GameEngine.get_score g' = GameEngine.get_score g + Config.ENEMY_POINTS * Z.of_nat kills /\
    (Player.lives (GameEngine.player g') = Player.lives (GameEngine.player g) \/
     Player.lives (GameEngine.player g') = Player.lives (GameEngine.player g) - 1) /\
    (forall e, e ∈ GameEngine.enemies g' -> e ∈ GameEngine.enemies g) /\
    (forall p, p ∈ GameEngine.player_projectiles g' -> p ∈ GameEngine.player_projectiles g).
Proof.
  intros Hnum.
  unfold GameEngine.check_collisions, GameEngine.check_collisions_projectiles,
    GameEngine.check_group_collision, GameEngine.groupcollide.
  destruct (GameEngine.groupcollide_loop GameEngine.enemies true true
              (GameEngine.player_projectiles g) g) as [hits g1] eqn:Hrun.
  pose proof (groupcollide_loop_groups _ _ _ _ Hrun) as Hg1.
  assert (Hscore : GameEngine.score_service g1 = GameEngine.score_service g)
    by (rewrite Hg1; reflexivity).
  rewrite Hscore.
  destruct (award_total hits (GameEngine.score_service g) Hnum) as (s' & Haward & Hcur & _).
  rewrite Haward. cbn [Py.bind].
  set (g2 := GameEngine.set_score_service s' g1).
  exists (GameEngine.check_collisions_player g2), (hits_total hits).
  split; [reflexivity |].
  assert (Hlives : Player.lives (GameEngine.player g2) = Player.lives (GameEngine.player g))
    by (unfold g2; rewrite Hg1; reflexivity).
  assert (Hpoints : GameEngine.get_score g2
                    = GameEngine.get_score g
                      + Config.ENEMY_POINTS * Z.of_nat (hits_total hits))
    by (unfold g2, GameEngine.get_score, ScoreService.get_current_score; cbn; exact Hcur).
  assert (Hsecond :
            (Player.lives (GameEngine.player (GameEngine.check_collisions_player g2))
             = Player.lives (GameEngine.player g2) \/
             Player.lives (GameEngine.player (GameEngine.check_collisions_player g2))
             = Player.lives (GameEngine.player g2) - 1) /\
            GameEngine.get_score (GameEngine.check_collisions_player g2)
            = GameEngine.get_score g2 /\
            (forall p, p ∈ GameEngine.player_projectiles (GameEngine.check_collisions_player g2)
                       -> p ∈ GameEngine.player_projectiles g2)).
  { destruct (Qlt_le_dec 0 (GameEngine.player_invulnerable_timer g2)) as [Hpos | Hle].
    - rewrite (check_collisions_player_shielded g2 Hpos). auto.
    - rewrite (check_collisions_player_open g2 Hle).
      destruct (filter _ (GameEngine.enemies g2)) as [| e c]; [auto |].
      rewrite kill_each_spec. split; [right; reflexivity |]. split; [reflexivity |].
      intros p. cbn [GameEngine.set_groups GameEngine.player_projectiles
        GameEngine.set_player_invulnerable_timer GameEngine.set_player].
      rewrite list_elem_of_filter. tauto. }
  destruct Hsecond as (Hl & Hs & Hp).
  rewrite Hs, Hpoints. rewrite Hlives in Hl.
  split; [reflexivity |]. split; [exact Hl |]. split.
  - intros e He. apply check_collisions_player_enemies in He.
    unfold g2 in He. rewrite Hg1 in He.
    cbn [GameEngine.set_score_service GameEngine.set_groups GameEngine.enemies] in He.
    apply list_elem_of_filter in He. tauto.
  - intros p Hin. apply Hp in Hin. unfold g2 in Hin. rewrite Hg1 in Hin.
    cbn [GameEngine.set_score_service GameEngine.set_groups GameEngine.player_projectiles]
      in Hin.
    apply list_elem_of_filter in Hin. tauto.
Qed.

Lemma check_collisions_bounds_sample :
  exists (g' : GameEngine.t) (kills : nat),
    GameEngine.check_collisions Sample.engine_rammed = Py.Ok g' /\
    GameEngine.get_score g'
    = GameEngine.get_score Sample.engine_rammed + Config.ENEMY_POINTS * Z.of_nat kills.
Proof.
  destruct (check_collisions_bounds Sample.engine_rammed) as (g' & kills & Hrun & Hscore & _).
  - eexists. reflexivity.
  - exists g', kills. split; [exact Hrun | exact Hscore].
Defined.

(** ** The high score from one session to the next *)

Lemma load_high_score_keeps_file (w : World.t) :
  World.file (snd (ScoreService.load_high_score w)) = World.file w /\
  World.dumps (snd (ScoreService.load_high_score w)) = World.dumps w.
Proof.
  destruct (World.file w) as [c |] eqn:Hfile.
  - rewrite (load_high_score_present c w Hfile).
    unfold World.try_except, World.bind, World.open_read, World.lift, World.print, World.ret,
      World.dumps, World.emit.
    rewrite Hfile. destruct (World.readable w); cbn.
    + destruct c as [j |]; cbn.
      * destruct j; cbn; rewrite ?List.filter_app, ?app_nil_r; auto.
      * rewrite List.filter_app. cbn. rewrite app_nil_r. auto.
    + rewrite List.filter_app. cbn. rewrite app_nil_r. auto.
  - rewrite (load_high_score_missing w Hfile). cbn. auto.
Qed.

(** X29.  Constructing the engine never fails and never writes: for every
    state of the save file [GameEngine()] returns the fresh engine around
    the loaded high score, with no points, full lives and the initial
    difficulty, and the file is what it was. *)
Theorem engine_construction_never_fails (w : World.t) :
  exists (v : Py.json) (w' : World.t),
    GameEngine.init w = (Py.Ok (GameEngine.fresh (ScoreService.mk 0 v)), w') /\
    fst (ScoreService.load_high_score w) = Py.Ok v /\
    World.file w' = World.file w /\
    World.dumps w' = World.dumps w /\
    GameEngine.get_score (GameEngine.fresh (ScoreService.mk 0 v)) = 0 /\
    Player.lives (GameEngine.player (GameEngine.fresh (ScoreService.mk 0 v)))
    = Config.PLAYER_STARTING_LIVES.
Proof.
  destruct (load_high_score_total w) as (v & w' & Hload).
  pose proof (load_high_score_keeps_file w) as [Hfile Hdumps]. rewrite Hload in Hfile, Hdumps.
  exists v, w'. unfold GameEngine.init, ScoreService.init, World.bind. rewrite Hload.
  cbn [World.ret fst snd] in *. repeat split; assumption.
Qed.

(** X30.  The high score reaches the next session.  When the game is over
    and the disk takes the write, the poll that finds it saves the high
    score, and an engine constructed afterwards over that file starts with
    this high score and a current score of 0. *)
Theorem high_score_reaches_next_session (g : GameEngine.t) (w : World.t) :
  Player.lives (GameEngine.player g) <= 0 ->
  World.writable w = true -> World.disk_full w = false -> World.readable w = true ->
  exists w1 w2,
    GameEngine.is_game_over g w = (Py.Ok true, w1) /\
    GameEngine.init w1
    = (Py.Ok (GameEngine.fresh
                (ScoreService.mk 0 (ScoreService.high_score (GameEngine.score_service g)))),
       w2).
Proof.
  intros Hover Hw Hd Hr.
  unfold GameEngine.is_game_over.
  destruct (Z.leb_spec (Player.lives (GameEngine.player g)) 0) as [_ | Hgt]; [| lia].
  unfold World.bind at 1. rewrite (save_high_score_ok _ w Hw Hd).
  set (w1 := World.emit _ _).
  exists w1, w1. split; [reflexivity |].
  unfold GameEngine.init, ScoreService.init, World.bind.
  rewrite (load_high_score_object
             [("high_score"%string, ScoreService.high_score (GameEngine.score_service g))]
             w1 eq_refl Hr).
  reflexivity.
Qed.

Lemma high_score_reaches_next_session_sample :
  exists w1 w2,
    GameEngine.is_game_over Sample.engine_over_120 Sample.first_run = (Py.Ok true, w1) /\
    GameEngine.init w1
    = (Py.Ok (GameEngine.fresh (ScoreService.mk 0 (Py.JInt 120))), w2).
Proof.
  apply (high_score_reaches_next_session Sample.engine_over_120 Sample.first_run);
    [vm_compute; discriminate | reflexivity | reflexivity | reflexivity].
Defined.
